(** * Certificate manager and rule store of the gateway

    A shallow embedding of [register], [renew] and [writeCertificates]
    (the certificate manager) and of [Database.getRules] (the rule store),
    with the properties of the certificate lifecycle stated over it.

    The remote registration server, the ACME client (greenlock), the
    settings table and the disk are collaborators: every outcome they can
    produce is an input of the model (record [World]), and the theorems
    quantify over it.  What the code prints with [console.debug] under
    [DEBUG] is not part of the model; [console.error] is. *)

From stdpp Require Import gmap strings list fin_maps pretty.

Local Open Scope string_scope.
Local Open Scope list_scope.
Set Warnings "-register-all".

(** ** JavaScript data *)

(** The values the code handles: decoded JSON bodies, thrown errors and the
    arguments of the completion callback.  [JNum] carries integer-valued
    numbers, which is all the claims ever need; functions are not data. *)
Inductive jsval : Type :=
| JUndefined
| JNull
| JBool (b : bool)
| JNum (n : Z)
| JStr (s : string)
| JArr (elems : list jsval)
| JObj (fields : list (string * jsval)).

(** [if (v)]: ToBoolean. *)
Definition truthy (v : jsval) : bool :=
  match v with
  | JUndefined | JNull => false
  | JBool b => b
  | JNum n => negb (n =? 0)%Z
  | JStr s => negb (String.eqb s "")
  | JArr _ | JObj _ => true
  end.

(** [`${v}`]: ToString, as a template literal applies it. *)
Fixpoint to_str (v : jsval) : string :=
  match v with
  | JUndefined => "undefined"
  | JNull => "null"
  | JBool true => "true"
  | JBool false => "false"
  | JNum n => pretty n
  | JStr s => s
  | JArr l =>
      String.concat ","
        ((fix elems (l : list jsval) : list string :=
            match l with
            | [] => []
            | x :: r =>
                match x with
                | JUndefined | JNull => ""
                | _ => to_str x
                end :: elems r
            end) l)
  | JObj _ => "[object Object]"
  end.

(** Own property of an object literal; a later duplicate key wins, as in
    [JSON.parse]. *)
Fixpoint own_prop (k : string) (fields : list (string * jsval)) : option jsval :=
  match fields with
  | [] => None
  | (k', v) :: rest =>
      match own_prop k rest with
      | Some v' => Some v'
      | None => if String.eqb k k' then Some v else None
      end
  end.

Definition TypeError (msg : string) : jsval :=
  JObj [("name", JStr "TypeError"); ("message", JStr msg)].

(** [v.k] for the property names the code reads ([error], [token], [name],
    [detail], [message]), none of which is inherited by plain data:
    [None] is the TypeError of a read on [undefined] or [null]. *)
Definition get_prop (v : jsval) (k : string) : option jsval :=
  match v with
  | JUndefined | JNull => None
  | JObj fields => Some (default JUndefined (own_prop k fields))
  | _ => Some JUndefined
  end.

(** Does the decoded value carry a field [k] at all? *)
Definition has_field (v : jsval) (k : string) : bool :=
  match v with
  | JObj fields => bool_decide (is_Some (own_prop k fields))
  | _ => false
  end.

Definition newline : string := String (Ascii.ascii_of_nat 10) "".

(** [m.substring(0, m.indexOf('\n'))]: the first line when there is a line
    break, and the empty string when there is none ([indexOf] gives -1,
    which [substring] clamps to 0). *)
Definition first_line (m : string) : string :=
  match String.index 0 newline m with
  | Some i => String.substring 0 i m
  | None => ""
  end.

(** White space and line terminators that fit in one code unit. *)
Definition is_ws (c : Ascii.ascii) : bool :=
  let n := Ascii.nat_of_ascii c in
  ((9 <=? n)%nat && (n <=? 13)%nat) || (n =? 32)%nat || (n =? 160)%nat.

Fixpoint trim_start (s : string) : string :=
  match s with
  | String c r => if is_ws c then trim_start r else s
  | EmptyString => EmptyString
  end.

Fixpoint trim_end (s : string) : string :=
  match s with
  | String c r =>
      match trim_end r with
      | EmptyString => if is_ws c then EmptyString else String c EmptyString
      | r' => String c r'
      end
  | EmptyString => EmptyString
  end.

(** [s.trim()] *)
Definition trim (s : string) : string := trim_end (trim_start s).

(** [if (reclamationToken)] on a [string?] argument ([None]: not given). *)
Definition given (reclamationToken : option string) : bool :=
  match reclamationToken with
  | Some s => truthy (JStr s)
  | None => false
  end.

(** ** Collaborators *)

(** A promise once it has settled. *)
Inductive settled (A : Type) : Type :=
| Fulfil (a : A)
| Reject (e : jsval).
Arguments Fulfil {A} a.
Arguments Reject {A} e.

(** What [fetch] resolves to: any status is a response; [res.text()] is a
    second promise. *)
Record Response := {
  status : Z;
  text : settled string;
}.

(** The [results] object of greenlock. *)
Record Results := {
  cert : string;
  privkey : string;
  chain : string;
}.

(** [le.register] with the dns-01 challenge, as a strategy: the issuer
    either settles or asks the challenge plugin to publish a digest, the
    network answers the [dnsconfig] request ([net]), and the issuer goes on
    from the promise [leDnsResponse] returned. *)
Inductive acme : Type :=
| AcmeResolve (results : Results)
| AcmeReject (err : jsval)
| AcmeChallenge (challenge keyAuthorization keyAuthDigest : string)
    (net : settled Response) (k : settled string -> acme).

(** [fs.writeFileSync]: it returns, or throws and leaves the file as it was
    ([None]) or with other content ([Some c], a write cut short). *)
Inductive write_outcome : Type :=
| WriteOk
| WriteFail (e : jsval) (left : option string).

Record World := {
  JSON_parse : string -> settled jsval;
  subscribe_net : settled Response;
  Settings_set : settled unit;
  le_register_dns : acme;
  writeFileSync : string -> write_outcome;
  setemail_net : settled Response;
  Settings_get : settled jsval;
  le_register_http : settled Results;
}.

(** [config.get('ssltunnel. ...')] and [UserProfile.sslDir]. *)
Record Config := {
  registration_endpoint : string;
  certemail : string;
  domain : string;
  sslDir : string;
}.

(** ** Observable effects *)

Inductive endpoint_op : Type := Subscribe | DnsConfig | SetEmail.

Inductive event : Type :=
| Fetch (op : endpoint_op) (url : string)
| SettingsSet (key : string) (v : jsval)
| SettingsGet (key : string)
| LeRegister (domain email challengeType : string)
| WriteFile (path data : string)
| Callback (err : jsval)
| ConsoleError (msg : string) (args : list jsval).

(** The trace is chronological.  [token] is the [let token] of [register]
    that the closure [leDnsResponse] reads. *)
Record State := {
  trace : list event;
  fs : gmap string string;
  settings : gmap string jsval;
  token : jsval;
}.

Definition log (e : event) (st : State) : State :=
  {| trace := trace st ++ [e]; fs := fs st; settings := settings st;
     token := token st |}.

Definition with_fs (f : gmap string string) (st : State) : State :=
  {| trace := trace st; fs := f; settings := settings st; token := token st |}.

Definition with_settings (s : gmap string jsval) (st : State) : State :=
  {| trace := trace st; fs := fs st; settings := s; token := token st |}.

Definition with_token (t : jsval) (st : State) : State :=
  {| trace := trace st; fs := fs st; settings := settings st; token := t |}.

(** ** Control flow: values, exceptions and [return] *)

Inductive res (A : Type) : Type :=
| Val (a : A)
| Throw (e : jsval)
| Return.
Arguments Val {A} a.
Arguments Throw {A} e.
Arguments Return {A}.

Definition M (A : Type) : Type := State -> res A * State.

Definition ret {A} (a : A) : M A := fun st => (Val a, st).
Definition throw {A} (e : jsval) : M A := fun st => (Throw e, st).
Definition return_ {A} : M A := fun st => (Return, st).

Definition bind {A B} (m : M A) (f : A -> M B) : M B := fun st =>
  match m st with
  | (Val a, st') => f a st'
  | (Throw e, st') => (Throw e, st')
  | (Return, st') => (Return, st')
  end.

(** [try { m } catch (e) { h e }] *)
Definition try_catch {A} (m : M A) (h : jsval -> M A) : M A := fun st =>
  match m st with
  | (Throw e, st') => h e st'
  | r => r
  end.

Notation "'let*' x ':=' m 'in' k" := (bind m (fun x => k))
  (at level 10, x pattern, m at level 200, k at level 200).
Notation "m ';;' k" := (bind m (fun _ => k))
  (at level 100, k at level 200, right associativity).

Definition emit (e : event) : M unit := fun st => (Val tt, log e st).

(** [await p] *)
Definition await {A} (p : settled A) : M A :=
  match p with
  | Fulfil a => ret a
  | Reject e => throw e
  end.

Definition callback (err : jsval) : M unit := emit (Callback err).
Definition console_error (msg : string) (args : list jsval) : M unit :=
  emit (ConsoleError msg args).

(** [v.k], throwing on [undefined] and [null]. *)
Definition prop (v : jsval) (k : string) : M jsval :=
  match get_prop v k with
  | Some x => ret x
  | None => throw (TypeError ("Cannot read property '" +:+ k +:+ "' of " +:+ to_str v))
  end.

Definition fetch (op : endpoint_op) (url : string) (net : settled Response) : M Response :=
  emit (Fetch op url);; await net.

(** ** The certificate manager *)

Definition path_join (dir name : string) : string := dir +:+ "/" +:+ name.

Definition fs_writeFileSync (w : World) (path data : string) : M unit := fun st =>
  let st := log (WriteFile path data) st in
  match writeFileSync w path with
  | WriteOk => (Val tt, with_fs (<[path := data]> (fs st)) st)
  | WriteFail e None => (Throw e, st)
  | WriteFail e (Some c) => (Throw e, with_fs (<[path := c]> (fs st)) st)
  end.

(** [writeCertificates(results)] *)
Definition writeCertificates (w : World) (cfg : Config) (results : Results) : M unit :=
  fs_writeFileSync w (path_join (sslDir cfg) "certificate.pem") (cert results);;
  fs_writeFileSync w (path_join (sslDir cfg) "privatekey.pem") (privkey results);;
  fs_writeFileSync w (path_join (sslDir cfg) "chain.pem") (chain results).

(** The promise [leDnsResponse] returns, once the request has settled:
    [fetch(...).then(res => res.text()).then(resolve).catch(reject)]. *)
Definition dns_settled (net : settled Response) : settled string :=
  match net with
  | Fulfil res =>
      match text res with
      | Fulfil _ => Fulfil "Success!"
      | Reject e => Reject e
      end
  | Reject e => Reject e
  end.

Definition dnsconfig_url (endpoint : string) (tok : jsval) (keyAuthDigest : string) : string :=
  endpoint +:+ "/dnsconfig?token=" +:+ to_str tok +:+ "&challenge=" +:+ keyAuthDigest.

(** [leChallenge.leDnsResponse(challenge, keyAuthorization, keyAuthDigest)] *)
Definition leDnsResponse (cfg : Config)
    (challenge keyAuthorization keyAuthDigest : string)
    (net : settled Response) : M (settled string) := fun st =>
  let st := log (Fetch DnsConfig
                   (dnsconfig_url (registration_endpoint cfg) (token st) keyAuthDigest)) st in
  match dns_settled net with
  | Fulfil msg => (Val (Fulfil msg), st)
  | Reject e =>
      (console_error "Failed to set DNS token on registration server:" [e];;
       callback e;;
       ret (Reject e)) st
  end.

(** [await le.register({domains: [fulldomain], ..., challengeType: 'dns-01'})] *)
Fixpoint run_acme (cfg : Config) (a : acme) : M Results :=
  match a with
  | AcmeResolve results => ret results
  | AcmeReject err => throw err
  | AcmeChallenge challenge keyAuthorization keyAuthDigest net k =>
      let* p := leDnsResponse cfg challenge keyAuthorization keyAuthDigest net in
      run_acme cfg (k p)
  end.

Definition subscribe_url (endpoint subdomain email : string)
    (reclamationToken : option string) : string :=
  let subscribeUrl := endpoint +:+ "/subscribe?name=" +:+ subdomain +:+ "&email=" +:+ email in
  match reclamationToken with
  | Some t => if given reclamationToken
              then subscribeUrl +:+ "&reclamationToken=" +:+ trim t
              else subscribeUrl
  | None => subscribeUrl
  end.

Definition setemail_url (endpoint : string) (tok : jsval) (email : string)
    (optout : bool) : string :=
  endpoint +:+ "/setemail?token=" +:+ to_str tok +:+ "&email=" +:+ email
    +:+ "&optout=" +:+ to_str (JBool optout).

(** [callback(err.detail || err.message.substring(0, err.message.indexOf('\n')))] *)
Definition report_registration_failure (err : jsval) : M unit :=
  let* detail := prop err "detail" in
  if truthy detail then callback detail
  else
    let* message := prop err "message" in
    match message with
    | JStr m => callback (JStr (first_line m))
    | _ => throw (TypeError "err.message.substring is not a function")
    end.

(** [register(email, reclamationToken, subdomain, fulldomain, optout, callback)] *)
Definition register (w : World) (cfg : Config) (email : string)
    (reclamationToken : option string) (subdomain fulldomain : string)
    (optout : bool) : M unit :=
  let endpoint := registration_endpoint cfg in
  try_catch
    (let* res := fetch Subscribe
                   (subscribe_url endpoint subdomain email reclamationToken)
                   (subscribe_net w) in
     let* body := await (text res) in
     let* jsonToken := await (JSON_parse w body) in
     let* error := prop jsonToken "error" in
     if truthy error then callback error;; return_
     else
       let* tok := prop jsonToken "token" in
       (fun st => (Val tt, with_token tok st));;
       emit (SettingsSet "tunneltoken" jsonToken);;
       await (Settings_set w);;
       (fun st => (Val tt, with_settings (<["tunneltoken" := jsonToken]> (settings st)) st)))
    (fun e => console_error "Failed to subscribe:" [e];; callback e;; return_);;
  try_catch
    (emit (LeRegister fulldomain (certemail cfg) "dns-01");;
     let* results := run_acme cfg (le_register_dns w) in
     writeCertificates w cfg results;;
     if negb (given reclamationToken) then
       try_catch
         (let* tok := (fun st => (Val (token st), st)) in
          fetch SetEmail (setemail_url endpoint tok email optout) (setemail_net w);;
          ret tt)
         (fun e => console_error "Failed to set email on server:" [e];;
                   callback e;; return_)
     else ret tt)
    (fun err => console_error "Registration failed:" [err];;
                report_registration_failure err);;
  callback JUndefined.

(** [renew()] *)
Definition renew (w : World) (cfg : Config) : M unit :=
  let* tunnelToken :=
    try_catch
      (emit (SettingsGet "tunneltoken");; await (Settings_get w))
      (fun e => console_error "Tunnel token not set!" [];; return_) in
  let* name := prop tunnelToken "name" in
  let domain := to_str name +:+ "." +:+ domain cfg in
  try_catch
    (emit (LeRegister domain (certemail cfg) "http-01");;
     let* results := await (le_register_http w) in
     writeCertificates w cfg results)
    (fun err => console_error "Renewal failed:" [err]).

(** A fresh invocation: nothing observed yet, [token] not assigned. *)
Definition start (files : gmap string string) (sett : gmap string jsval) : State :=
  {| trace := []; fs := files; settings := sett; token := JUndefined |}.

(** The promise an [async function] returns. *)
Definition finished {A} (r : res A) : settled unit :=
  match r with
  | Throw e => Reject e
  | _ => Fulfil tt
  end.

(** ** Reading a trace *)

#[global] Instance endpoint_op_eq_dec : EqDecision endpoint_op.
Proof. solve_decision. Defined.

(** The arguments the completion callback was invoked with, in order. *)
Definition callbacks (tr : list event) : list jsval :=
  omap (fun e => match e with Callback v => Some v | _ => None end) tr.

(** The URLs requested from one operation of the registration server. *)
Definition fetched (op : endpoint_op) (tr : list event) : list string :=
  omap (fun e => match e with
                 | Fetch op' url => if decide (op = op') then Some url else None
                 | _ => None
                 end) tr.

(** Calls that leave the machine: a request to the registration server or
    an ACME issuance. *)
Definition is_network (e : event) : bool :=
  match e with
  | Fetch _ _ | LeRegister _ _ _ => true
  | _ => false
  end.

Definition is_write (e : event) : bool :=
  match e with
  | WriteFile _ _ => true
  | _ => false
  end.

Definition is_settings_set (e : event) : bool :=
  match e with
  | SettingsSet _ _ => true
  | _ => false
  end.

Definition add_events (evs : list event) (st : State) : State :=
  {| trace := trace st ++ evs; fs := fs st; settings := settings st;
     token := token st |}.

(** ** The dns-01 exchange, read off the issuer's strategy *)

(** How [le.register] settles. *)
Fixpoint acme_result (a : acme) : settled Results :=
  match a with
  | AcmeResolve results => Fulfil results
  | AcmeReject err => Reject err
  | AcmeChallenge _ _ _ net k => acme_result (k (dns_settled net))
  end.

(** The key-authorization digests the issuer hands to the challenge plugin,
    one per round, in order. *)
Fixpoint acme_digests (a : acme) : list string :=
  match a with
  | AcmeChallenge _ _ keyAuthDigest net k =>
      keyAuthDigest :: acme_digests (k (dns_settled net))
  | _ => []
  end.

Definition dns_failure_events (p : settled string) : list event :=
  match p with
  | Fulfil _ => []
  | Reject e =>
      [ConsoleError "Failed to set DNS token on registration server:" [e];
       Callback e]
  end.

Fixpoint acme_events (endpoint : string) (tok : jsval) (a : acme) : list event :=
  match a with
  | AcmeChallenge _ _ keyAuthDigest net k =>
      Fetch DnsConfig (dnsconfig_url endpoint tok keyAuthDigest)
        :: dns_failure_events (dns_settled net)
        ++ acme_events endpoint tok (k (dns_settled net))
  | _ => []
  end.

Definition thrown {A} (p : settled A) : res A :=
  match p with
  | Fulfil a => Val a
  | Reject e => Throw e
  end.

(** Did the run get as far as calling [le.register]? *)
Definition reached_issuance (tr : list event) : bool :=
  existsb (fun e => match e with LeRegister _ _ _ => true | _ => false end) tr.

(** Did the handler of the issuance [try] run? *)
Definition handler_ran (tr : list event) : bool :=
  existsb (fun e => match e with
                    | ConsoleError msg _ => String.eqb msg "Registration failed:"
                    | _ => false
                    end) tr.

(** The three artifacts as they are on disk. *)
Definition bundle_on_disk (cfg : Config) (files : gmap string string)
    : option string * option string * option string :=
  (files !! path_join (sslDir cfg) "certificate.pem",
   files !! path_join (sslDir cfg) "privatekey.pem",
   files !! path_join (sslDir cfg) "chain.pem").

Definition stored (results : Results) : option string * option string * option string :=
  (Some (cert results), Some (privkey results), Some (chain results)).

(** The files of [results], written over [files]. *)
Definition written (cfg : Config) (results : Results) (files : gmap string string)
    : gmap string string :=
  <[path_join (sslDir cfg) "chain.pem" := chain results]>
  (<[path_join (sslDir cfg) "privatekey.pem" := privkey results]>
  (<[path_join (sslDir cfg) "certificate.pem" := cert results]> files)).

(** [m] only adds events, and each of them satisfies [Q]. *)
Definition emits {A} (Q : event -> Prop) (m : M A) : Prop :=
  forall st, exists evs,
    trace (snd (m st)) = trace st ++ evs /\ Forall Q evs.

Definition not_setemail (e : event) : Prop :=
  forall url, e <> Fetch SetEmail url.

(** What the subscribe stage has in hand before it looks at the decoded
    body: [JSON.parse(await (await fetch(subscribeUrl)).text())]. *)
Definition subscribe_response (w : World) : settled jsval :=
  match subscribe_net w with
  | Fulfil res =>
      match text res with
      | Fulfil body => JSON_parse w body
      | Reject e => Reject e
      end
  | Reject e => Reject e
  end.

(** The errors of the [dnsconfig] requests that failed during the
    exchange, in order. *)
Fixpoint acme_publish_errors (a : acme) : list jsval :=
  match a with
  | AcmeChallenge _ _ _ net k =>
      match dns_settled net with
      | Fulfil _ => []
      | Reject e => [e]
      end ++ acme_publish_errors (k (dns_settled net))
  | _ => []
  end.


Definition not_fetch (op : endpoint_op) (e : event) : Prop :=
  forall url, e <> Fetch op url.

(** [if b then x else y], by name. *)
Definition choose {A} (b : bool) (x y : A) : A := if b then x else y.

(** The invocations of the callback that [register] makes itself, given
    how its promise ended and whether the handler of the issuance [try]
    ran. *)
Definition own_invocations (p : settled unit) (handled : bool) : nat :=
  match p with
  | Reject _ => 0
  | Fulfil _ => if handled then 2 else 1
  end.

(** ** The rule store ([rules-engine/Database.js]) *)

Module Database.

(** A row of [rules (id INTEGER PRIMARY KEY, description TEXT)]; the
    column admits NULL. *)
Record Row := {
  id : Z;
  description : option string;
}.

(** What the rule store does not decide itself: [DatabaseMigrate.migrate]
    (which answers a falsy value when there is nothing to migrate), the
    JSON codec, and whether the statements handed to sqlite succeed. *)
Record World := {
  migrate : jsval -> jsval;
  JSON_parse : string -> settled jsval;
  JSON_stringify : jsval -> string;
  all_err : option jsval;
  run_update : Z -> string -> option jsval;
}.

(** How the promise of [getRules] ends: resolved with the mapping,
    rejected, never settled, or abandoned by an exception that escapes the
    callback of [db.all]. *)
Inductive outcome : Type :=
| Resolved (rules : gmap Z jsval)
| Rejected (err : jsval)
| Pending
| Uncaught (e : jsval).

Definition set_description (rid : Z) (text : string) (row : Row) : Row :=
  if (id row =? rid)%Z then {| id := id row; description := Some text |} else row.

(** [updateRule(id, desc)]: [UPDATE rules SET description = ? WHERE id = ?] *)
Definition updateRule (w : World) (rid : Z) (desc : jsval) (db : list Row)
    : settled unit * list Row :=
  let text := JSON_stringify w desc in
  match run_update w rid text with
  | Some e => (Reject e, db)
  | None => (Fulfil tt, map (set_description rid text) db)
  end.

(** [JSON.parse(row.description)]; NULL reads as the text [null]. *)
Definition parse_description (w : World) (row : Row) : settled jsval :=
  JSON_parse w (default "null" (description row)).

(** The body of [for (const row of rows)], with [rules] and
    [updatePromises] as accumulators; [inl e] is an exception of
    [JSON.parse].  The updates handed to the database so far are carried
    out on [db]. *)
Fixpoint each_row (w : World) (rows : list Row) (rules : gmap Z jsval)
    (updatePromises : list (settled unit)) (db : list Row)
    : (jsval + gmap Z jsval * list (settled unit)) * list Row :=
  match rows with
  | [] => (inr (rules, updatePromises), db)
  | row :: rest =>
      match parse_description w row with
      | Reject e => (inl e, db)
      | Fulfil desc =>
          let updatedDesc := migrate w desc in
          if truthy updatedDesc then
            let '(p, db') := updateRule w (id row) updatedDesc db in
            each_row w rest (<[id row := updatedDesc]> rules)
              (updatePromises ++ [p]) db'
          else
            each_row w rest (<[id row := desc]> rules) updatePromises db
      end
  end.

Definition is_fulfilled {A} (p : settled A) : bool :=
  match p with
  | Fulfil _ => true
  | Reject _ => false
  end.

(** [getRules()], on the table [db]: the outcome of the returned promise
    and the table once the statements have run.  [Promise.all(...).then]
    has no rejection handler, so a failed update leaves the promise
    pending. *)
Definition getRules (w : World) (db : list Row) : outcome * list Row :=
  match all_err w with
  | Some err => (Rejected err, db)
  | None =>
      match each_row w db ∅ [] db with
      | (inl e, db') => (Uncaught e, db')
      | (inr (rules, updatePromises), db') =>
          if forallb is_fulfilled updatePromises
          then (Resolved rules, db')
          else (Pending, db')
      end
  end.

(** What [getRules] is to answer for one stored row. *)
Definition migrated (w : World) (desc : jsval) : jsval :=
  if truthy (migrate w desc) then migrate w desc else desc.

(** The text the migration wants stored for a row, if it changes it. *)
Definition migration_text (w : World) (row : Row) : option string :=
  match parse_description w row with
  | Fulfil desc =>
      if truthy (migrate w desc)
      then Some (JSON_stringify w (migrate w desc))
      else None
  | Reject _ => None
  end.

(** The row as it is to be stored afterwards. *)
Definition persisted (w : World) (row : Row) : Row :=
  match migration_text w row with
  | Some text => {| id := id row; description := Some text |}
  | None => row
  end.

(** One pass of the loop, on the mapping and on the table. *)
Definition add_rule (w : World) (rules : gmap Z jsval) (row : Row) : gmap Z jsval :=
  match parse_description w row with
  | Fulfil desc => <[id row := migrated w desc]> rules
  | Reject _ => rules
  end.

Definition apply_migration (w : World) (db : list Row) (row : Row) : list Row :=
  match migration_text w row with
  | Some text => map (set_description (id row) text) db
  | None => db
  end.

(** What the updates issued for [rows] make of one row of the table. *)
Definition migrate_row (w : World) (rows : list Row) (row : Row) : Row :=
  foldl (fun r by_row =>
           match migration_text w by_row with
           | Some text => set_description (id by_row) text r
           | None => r
           end) row rows.

(** [createRule(desc)]: [INSERT INTO rules (description) VALUES (?)];
    [ran] is how the statement went, with the [lastID] sqlite picked. *)
Definition createRule (w : World) (ran : settled Z) (desc : jsval)
    (db : list Row) : settled Z * list Row :=
  match ran with
  | Fulfil lastID =>
      (Fulfil lastID,
       db ++ [{| id := lastID; description := Some (JSON_stringify w desc) |}])
  | Reject e => (Reject e, db)
  end.

(** [deleteRule(id)]: [DELETE FROM rules WHERE id = ?] *)
Definition deleteRule (ran : option jsval) (rid : Z) (db : list Row)
    : settled unit * list Row :=
  match ran with
  | Some e => (Reject e, db)
  | None => (Fulfil tt, filter (fun row => id row <> rid) db)
  end.

End Database.

(** ** Concrete collaborators, for the runs evaluated below *)

Definition dq : string := String (Ascii.ascii_of_nat 34) "".

(** [{"token":"abc123"}] *)
Definition body_token : string :=
  "{" +:+ dq +:+ "token" +:+ dq +:+ ":" +:+ dq +:+ "abc123" +:+ dq +:+ "}".
Definition json_token : jsval := JObj [("token", JStr "abc123")].

(** [{"name":"mygateway","token":"abc123"}] *)
Definition body_named : string :=
  "{" +:+ dq +:+ "name" +:+ dq +:+ ":" +:+ dq +:+ "mygateway" +:+ dq +:+ ","
      +:+ dq +:+ "token" +:+ dq +:+ ":" +:+ dq +:+ "abc123" +:+ dq +:+ "}".
Definition json_named : jsval :=
  JObj [("name", JStr "mygateway"); ("token", JStr "abc123")].

(** [{"error":"name taken"}] *)
Definition body_taken : string :=
  "{" +:+ dq +:+ "error" +:+ dq +:+ ":" +:+ dq +:+ "name taken" +:+ dq +:+ "}".
Definition json_taken : jsval := JObj [("error", JStr "name taken")].

(** The body whose only field, [error], is the empty string. *)
Definition body_empty_error : string :=
  "{" +:+ dq +:+ "error" +:+ dq +:+ ":" +:+ dq +:+ dq +:+ "}".
Definition json_empty_error : jsval := JObj [("error", JStr "")].

Definition SyntaxError : jsval :=
  JObj [("name", JStr "SyntaxError"); ("message", JStr "Unexpected token")].

(** [JSON.parse] on the bodies above. *)
Definition decode (body : string) : settled jsval :=
  if String.eqb body body_token then Fulfil json_token
  else if String.eqb body body_named then Fulfil json_named
  else if String.eqb body body_taken then Fulfil json_taken
  else if String.eqb body body_empty_error then Fulfil json_empty_error
  else Reject SyntaxError.

Definition a_config : Config :=
  {| registration_endpoint := "https://api.example.com";
     certemail := "certs@example.com";
     domain := "example.com";
     sslDir := "/home/user/.mozilla-iot/ssl" |}.

Definition ok (status : Z) (body : string) : settled Response :=
  Fulfil {| status := status; text := Fulfil body |}.

Definition a_bundle : Results :=
  {| cert := "CERT-2"; privkey := "KEY-2"; chain := "CHAIN-2" |}.

Definition network_down : jsval :=
  JObj [("name", JStr "FetchError"); ("message", JStr "ECONNREFUSED")].

Definition rate_limited : jsval :=
  JObj [("detail", JStr "too many certificates already issued");
        ("message", JStr "rateLimited")].

Definition disk_full : jsval :=
  JObj [("code", JStr "ENOSPC");
        ("message", JStr "ENOSPC: no space left on device, write")].

(** An issuer that asks for one digest and issues once it is published. *)
Definition one_round : acme :=
  AcmeChallenge "challenge-token" "challenge-token.thumbprint"
    "LPJNul-wow4m6DsqxbninhsWHlwfp0JecwQzYpOLmCQ" (ok 200 "")
    (fun p => match p with
              | Fulfil _ => AcmeResolve a_bundle
              | Reject e => AcmeReject e
              end).

Definition a_world (body : string) (issuer : acme)
    (disk : string -> write_outcome) (setemail : settled Response) : World :=
  {| JSON_parse := decode;
     subscribe_net := ok 200 body;
     Settings_set := Fulfil tt;
     le_register_dns := issuer;
     writeFileSync := disk;
     setemail_net := setemail;
     Settings_get := Reject (JObj [("message", JStr "no such setting")]);
     le_register_http := Fulfil a_bundle |}.

Definition disk_ok : string -> write_outcome := fun _ => WriteOk.

(** A world given outcome by outcome, with [decode] as [JSON.parse]. *)
Definition world_of (subscribe : settled Response) (set : settled unit)
    (issuer : acme) (disk : string -> write_outcome)
    (setemail : settled Response) (get : settled jsval)
    (http : settled Results) : World :=
  {| JSON_parse := decode;
     subscribe_net := subscribe;
     Settings_set := set;
     le_register_dns := issuer;
     writeFileSync := disk;
     setemail_net := setemail;
     Settings_get := get;
     le_register_http := http |}.

(** The disk fills up when the private key is written. *)
Definition disk_fails_at_key : string -> write_outcome := fun path =>
  if String.eqb path (path_join (sslDir a_config) "privatekey.pem")
  then WriteFail disk_full None
  else WriteOk.

(** The bundle of an earlier issuance, on disk. *)
Definition old_files : gmap string string :=
  <[path_join (sslDir a_config) "certificate.pem" := "CERT-1"]>
  (<[path_join (sslDir a_config) "privatekey.pem" := "KEY-1"]>
  (<[path_join (sslDir a_config) "chain.pem" := "CHAIN-1"]> ∅)).

(** Rule descriptions [{"version":n}]; the migration lifts version 1 to
    version 2 and has nothing to do otherwise. *)
Definition versioned (n : Z) : jsval := JObj [("version", JNum n)].

Definition versioned_text (n : Z) : string :=
  "{" +:+ dq +:+ "version" +:+ dq +:+ ":" +:+ pretty n +:+ "}".

Definition a_rule_world : Database.World :=
  {| Database.migrate := fun d =>
       match d with
       | JObj [("version", JNum 1)] => versioned 2
       | _ => JNull
       end;
     Database.JSON_parse := fun s =>
       if String.eqb s (versioned_text 1) then Fulfil (versioned 1)
       else if String.eqb s (versioned_text 2) then Fulfil (versioned 2)
       else Reject SyntaxError;
     Database.JSON_stringify := fun d =>
       match d with
       | JObj [("version", JNum n)] => versioned_text n
       | _ => "null"
       end;
     Database.all_err := None;
     Database.run_update := fun _ _ => None |}.

Definition some_rules : list Database.Row :=
  [ {| Database.id := 1; Database.description := Some (versioned_text 1) |};
    {| Database.id := 2; Database.description := Some (versioned_text 2) |} ].

(** * Properties *)

(** ** Bookkeeping on states and traces *)

Lemma log_add_events e st : log e st = add_events [e] st.
Proof. reflexivity. Qed.

Lemma add_events_nil st : add_events [] st = st.
Proof. destruct st; unfold add_events; simpl. by rewrite app_nil_r. Qed.

Lemma add_events_app evs1 evs2 st :
  add_events evs2 (add_events evs1 st) = add_events (evs1 ++ evs2) st.
Proof. unfold add_events; simpl. by rewrite app_assoc. Qed.

Lemma callbacks_app tr1 tr2 : callbacks (tr1 ++ tr2) = callbacks tr1 ++ callbacks tr2.
Proof. apply omap_app. Qed.

Lemma fetched_app op tr1 tr2 : fetched op (tr1 ++ tr2) = fetched op tr1 ++ fetched op tr2.
Proof. apply omap_app. Qed.

(** [run_acme] settles as [acme_result] says, emits [acme_events] and
    touches nothing else. *)
Lemma run_acme_spec cfg a :
  forall st,
    run_acme cfg a st
    = (thrown (acme_result a),
       add_events (acme_events (registration_endpoint cfg) (token st) a) st).
Proof.
  induction a as [results | err | ch ka d net k IH]; intros st; simpl.
  - by rewrite add_events_nil.
  - by rewrite add_events_nil.
  - unfold bind, leDnsResponse.
    destruct (dns_settled net) as [msg | e]; simpl.
    + rewrite IH. by rewrite log_add_events, add_events_app.
    + unfold bind, console_error, callback, emit, ret; simpl.
      rewrite IH; simpl. rewrite !log_add_events, !add_events_app. reflexivity.
Qed.

(** The three artifacts are distinct files, whatever the directory. *)
Lemma append_inj_l (p a b : string) : p +:+ a = p +:+ b -> a = b.
Proof. induction p as [| c p IH]; simpl; [done | intros [= H]; auto]. Qed.

Lemma path_join_inj dir a b : path_join dir a = path_join dir b -> a = b.
Proof.
  unfold path_join. intros H. apply append_inj_l in H. by apply append_inj_l in H.
Qed.

Lemma artifacts_distinct dir :
  path_join dir "certificate.pem" <> path_join dir "privatekey.pem"
  /\ path_join dir "certificate.pem" <> path_join dir "chain.pem"
  /\ path_join dir "privatekey.pem" <> path_join dir "chain.pem".
Proof. repeat split; intros H; apply path_join_inj in H; discriminate. Qed.

(** ** Tactics for running the model *)

Ltac unfold_m :=
  unfold register, renew, writeCertificates, fs_writeFileSync,
    report_registration_failure, leDnsResponse, fetch, prop, await, callback,
    console_error, emit, bind, try_catch, ret, throw, return_, thrown in *.

(** Follow the code: rewrite the dns-01 exchange by its summary, compute,
    and split on the next collaborator outcome. *)
Ltac crunch :=
  repeat first
    [ rewrite run_acme_spec
    | progress (simpl in *)
    | case_match; try discriminate; simplify_eq ].

Lemma fetched_acme_events endpoint tok a :
  fetched DnsConfig (acme_events endpoint tok a)
  = map (dnsconfig_url endpoint tok) (acme_digests a).
Proof.
  induction a as [results | err | ch ka d net k IH]; simpl; try done.
  unfold fetched in *. simpl. rewrite omap_app, IH. f_equal.
  by destruct (dns_settled net).
Qed.

Lemma acme_events_not_setemail endpoint tok a :
  Forall not_setemail (acme_events endpoint tok a).
Proof.
  induction a as [results | err | ch ka d net k IH]; simpl; try constructor.
  - intros url; discriminate.
  - apply Forall_app; split; [| apply IH].
    destruct (dns_settled net); simpl; repeat constructor; intros url; discriminate.
Qed.

Lemma fetched_not_setemail evs :
  Forall not_setemail evs -> fetched SetEmail evs = [].
Proof.
  induction 1 as [| e evs He _ IH]; [done |].
  unfold fetched in *.
  destruct e as [[] url | | | | | |]; simpl; rewrite ?IH; try done.
  by destruct (He url).
Qed.

(** ** The DNS-challenge publisher *)

(** C10: whatever the status of the response to the [dnsconfig] request,
    once the response and its body have arrived the publisher resolves with
    ['Success!'] and does not touch the completion callback; it rejects
    only with the error of a request that failed on the network (the
    [fetch] promise or the reading of the body rejected). *)
Theorem leDnsResponse_ignores_status cfg challenge keyAuthorization keyAuthDigest net st :
  let '(p, st') := leDnsResponse cfg challenge keyAuthorization keyAuthDigest net st in
  (forall code body,
      net = ok code body ->
      p = Val (Fulfil "Success!") /\ callbacks (trace st') = callbacks (trace st))
  /\ (forall e,
      p = Val (Reject e) ->
      net = Reject e \/ exists code, net = Fulfil {| status := code; text := Reject e |})
  /\ exists q, p = Val q.
Proof.
  unfold leDnsResponse, ok.
  destruct net as [[code [body | e']] | e']; simpl; unfold_m; simpl.
  - split; [| split; [| eauto]].
    + intros code' body' _. split; [done |].
      rewrite callbacks_app; simpl. by rewrite app_nil_r.
    + intros e [=].
  - split; [| split; [| eauto]].
    + intros code' body' [=].
    + intros e [= <-]. right. eauto.
  - split; [| split; [| eauto]].
    + intros code' body' [=].
    + intros e [= <-]. by left.
Qed.

Lemma leDnsResponse_ignores_status_witness :
  fst (leDnsResponse a_config "c" "k" "digest" (ok 503 "Service Unavailable") (start ∅ ∅))
  = Val (Fulfil "Success!").
Proof.
  pose proof (leDnsResponse_ignores_status a_config "c" "k" "digest"
                (ok 503 "Service Unavailable") (start ∅ ∅)) as H.
  destruct (leDnsResponse a_config "c" "k" "digest" (ok 503 "Service Unavailable")
              (start ∅ ∅)) as [p st'].
  destruct H as [H _]. simpl. exact (proj1 (H 503%Z "Service Unavailable" eq_refl)).
Defined.

(** ** Renewal *)

(** C4: when [Settings.get('tunneltoken')] rejects, [renew] logs
    ["Tunnel token not set!"] and returns: it requests nothing from the
    registration server, does not call the ACME issuer, and the files on
    disk are the ones that were there. *)
Theorem renew_without_token w cfg st e :
  Settings_get w = Reject e ->
  let '(out, st') := renew w cfg st in
  out = Return
  /\ trace st' = trace st ++ [SettingsGet "tunneltoken";
                              ConsoleError "Tunnel token not set!" []]
  /\ filter is_network (trace st') = filter is_network (trace st)
  /\ filter is_write (trace st') = filter is_write (trace st)
  /\ fs st' = fs st.
Proof.
  intros H. unfold_m. rewrite H. simpl.
  rewrite <- app_assoc. simpl.
  repeat split; by rewrite filter_app, app_nil_r.
Qed.

Lemma renew_without_token_witness :
  fs (snd (renew (a_world body_token one_round disk_ok (ok 200 "")) a_config
             (start old_files ∅))) = old_files.
Proof.
  pose proof (renew_without_token (a_world body_token one_round disk_ok (ok 200 ""))
                a_config (start old_files ∅) _ eq_refl) as H.
  destruct (renew _ _ _) as [out st']. simpl. apply H.
Defined.

(** ** Writing the bundle *)

(** C2, as the code has it: the three files are written one after the
    other from the one bundle.  When every write succeeds the three
    artifacts are those of the bundle; when a write throws, the files
    written before it hold the new bundle and the files after it are not
    touched.  No other file changes. *)
Theorem writeCertificates_in_order w cfg results st :
  let c := path_join (sslDir cfg) "certificate.pem" in
  let k := path_join (sslDir cfg) "privatekey.pem" in
  let h := path_join (sslDir cfg) "chain.pem" in
  let '(out, st') := writeCertificates w cfg results st in
  match writeFileSync w c, writeFileSync w k, writeFileSync w h with
  | WriteOk, WriteOk, WriteOk =>
      out = Val tt /\ fs st' = written cfg results (fs st)
      /\ bundle_on_disk cfg (fs st') = stored results
  | WriteOk, WriteOk, WriteFail e _ =>
      out = Throw e /\ fs st' !! c = Some (cert results)
      /\ fs st' !! k = Some (privkey results)
  | WriteOk, WriteFail e _, _ =>
      out = Throw e /\ fs st' !! c = Some (cert results)
      /\ fs st' !! h = fs st !! h
  | WriteFail e _, _, _ =>
      out = Throw e /\ fs st' !! k = fs st !! k /\ fs st' !! h = fs st !! h
  end
  /\ forall p, p <> c -> p <> k -> p <> h -> fs st' !! p = fs st !! p.
Proof.
  intros c k h.
  destruct (artifacts_distinct (sslDir cfg)) as (Hck & Hch & Hkh).
  fold c k h in Hck, Hch, Hkh.
  unfold_m. fold c k h. unfold written, bundle_on_disk, stored. fold c k h.
  destruct (writeFileSync w c) as [| e1 [l1 |]]; simpl;
    [ destruct (writeFileSync w k) as [| e2 [l2 |]]; simpl;
      [ destruct (writeFileSync w h) as [| e3 [l3 |]]; simpl | .. ] | .. ];
    (split; [| intros p Hc Hk Hh; by simplify_map_eq]);
    repeat split; by simplify_map_eq.
Qed.

(** C2 fails as stated: with the bundle of an earlier issuance on disk and
    a disk that fills up while the private key is written, the certificate
    is the new one and the key and the chain are the old ones. *)
Lemma writeCertificates_mixes_issuances :
  let w := a_world body_token one_round disk_fails_at_key (ok 200 "") in
  let '(out, st') := writeCertificates w a_config a_bundle (start old_files ∅) in
  out = Throw disk_full
  /\ bundle_on_disk a_config old_files = (Some "CERT-1", Some "KEY-1", Some "CHAIN-1")
  /\ bundle_on_disk a_config (fs st') = (Some "CERT-2", Some "KEY-1", Some "CHAIN-1")
  /\ bundle_on_disk a_config (fs st') <> bundle_on_disk a_config old_files
  /\ bundle_on_disk a_config (fs st') <> stored a_bundle.
Proof. vm_compute. repeat split; discriminate. Qed.

(** ** Registration *)

(** C1 fails on the code: the handler of the issuance [try] reports the
    error and does not return, so the [callback()] after it runs too.  Here
    the subscription succeeds and the issuer refuses (rate limit): the
    callback is invoked twice, first with the error, then with nothing. *)
Theorem register_reports_error_then_success :
  let w := a_world body_token (AcmeReject rate_limited) disk_ok (ok 200 "") in
  let '(out, st') :=
    register w a_config "user@example.com" None "mygateway"
      "mygateway.example.com" false (start ∅ ∅) in
  finished out = Fulfil tt
  /\ callbacks (trace st')
     = [JStr "too many certificates already issued"; JUndefined].
Proof. vm_compute. done. Qed.

(** C3, as the code has it: when the decoded subscribe response is an
    object whose [error] field is truthy, [register] hands that value to
    the callback and returns.  Besides the subscribe request nothing
    happened: no [dnsconfig] request, no issuance, no settings record, no
    file. *)
Theorem register_stops_on_subscribe_error
    w cfg email rt sub full optout files sett res body fields error :
  subscribe_net w = Fulfil res ->
  text res = Fulfil body ->
  JSON_parse w body = Fulfil (JObj fields) ->
  own_prop "error" fields = Some error ->
  truthy error = true ->
  register w cfg email rt sub full optout (start files sett)
  = (Return,
     {| trace := [Fetch Subscribe
                    (subscribe_url (registration_endpoint cfg) sub email rt);
                  Callback error];
        fs := files; settings := sett; token := JUndefined |}).
Proof.
  intros Hnet Htext Hparse Hfield Htruthy.
  unfold_m. rewrite Hnet. simpl. rewrite Htext. simpl. rewrite Hparse. simpl.
  rewrite Hfield. simpl. rewrite Htruthy. reflexivity.
Qed.

Lemma register_stops_on_subscribe_error_witness :
  let w := a_world body_taken one_round disk_ok (ok 200 "") in
  let st' := snd (register w a_config "user@example.com" None "mygateway"
                    "mygateway.example.com" false (start old_files ∅)) in
  callbacks (trace st') = [JStr "name taken"]
  /\ fs st' = old_files /\ settings st' = ∅.
Proof.
  intros w st'. subst st'.
  rewrite (register_stops_on_subscribe_error w a_config "user@example.com" None
             "mygateway" "mygateway.example.com" false old_files ∅
             {| status := 200; text := Fulfil body_taken |} body_taken
             [("error", JStr "name taken")] (JStr "name taken")
             eq_refl eq_refl eq_refl eq_refl eq_refl).
  simpl. done.
Defined.

(** C3 fails as stated: a response whose [error] field is the empty string
    decodes to an object with an [error] field, and [register] goes on: it stores the
    record, calls the issuer, answers its challenge and writes the files. *)
Lemma register_goes_on_after_empty_error :
  let w := a_world body_empty_error one_round disk_ok (ok 200 "") in
  let st' := snd (register w a_config "user@example.com" None "mygateway"
                    "mygateway.example.com" false (start ∅ ∅)) in
  JSON_parse w body_empty_error = Fulfil json_empty_error
  /\ has_field json_empty_error "error" = true
  /\ settings st' !! "tunneltoken" = Some json_empty_error
  /\ reached_issuance (trace st') = true
  /\ length (fetched DnsConfig (trace st')) = 1
  /\ bundle_on_disk a_config (fs st') = stored a_bundle.
Proof. vm_compute. done. Qed.

(** *** What a computation may emit *)

Lemma emits_ret {A} Q (a : A) : emits Q (ret a).
Proof. intros st. exists []. by rewrite app_nil_r. Qed.

Lemma emits_throw {A} Q e : emits Q (@throw A e).
Proof. intros st. exists []. by rewrite app_nil_r. Qed.

Lemma emits_return {A} Q : emits Q (@return_ A).
Proof. intros st. exists []. by rewrite app_nil_r. Qed.

Lemma emits_emit (Q : event -> Prop) e : Q e -> emits Q (emit e).
Proof. intros He st. exists [e]. split; [done | by constructor]. Qed.

Lemma emits_bind {A B} Q (m : M A) (f : A -> M B) :
  emits Q m -> (forall a, emits Q (f a)) -> emits Q (bind m f).
Proof.
  intros Hm Hf st. unfold bind.
  destruct (Hm st) as (evs & Htr & Hevs).
  destruct (m st) as [[a | e |] st1]; simpl in *; [| by eauto | by eauto].
  destruct (Hf a st1) as (evs' & Htr' & Hevs').
  exists (evs ++ evs'). split; [| by apply Forall_app].
  by rewrite Htr', Htr, app_assoc.
Qed.

Lemma emits_try_catch {A} Q (m : M A) (h : jsval -> M A) :
  emits Q m -> (forall e, emits Q (h e)) -> emits Q (try_catch m h).
Proof.
  intros Hm Hh st. unfold try_catch.
  destruct (Hm st) as (evs & Htr & Hevs).
  destruct (m st) as [[a | e |] st1]; simpl in *; [by eauto | | by eauto].
  destruct (Hh e st1) as (evs' & Htr' & Hevs').
  exists (evs ++ evs'). split; [| by apply Forall_app].
  by rewrite Htr', Htr, app_assoc.
Qed.

Lemma emits_await {A} Q (p : settled A) : emits Q (await p).
Proof. destruct p; [apply emits_ret | apply emits_throw]. Qed.

Lemma emits_prop Q v k : emits Q (prop v k).
Proof. unfold prop. destruct (get_prop v k); [apply emits_ret | apply emits_throw]. Qed.

Lemma emits_update Q (f : State -> State) :
  (forall st, trace (f st) = trace st) ->
  emits Q (fun st => (Val tt, f st)).
Proof. intros Hf st. exists []. simpl. by rewrite Hf, app_nil_r. Qed.

Lemma emits_run_acme Q cfg a :
  (forall tok, Forall Q (acme_events (registration_endpoint cfg) tok a)) ->
  emits Q (run_acme cfg a).
Proof. intros HQ st. rewrite run_acme_spec. simpl. eauto. Qed.

Lemma emits_fs_writeFileSync (Q : event -> Prop) w path data :
  Q (WriteFile path data) -> emits Q (fs_writeFileSync w path data).
Proof.
  intros HQ st. exists [WriteFile path data]. split; [| by constructor].
  unfold fs_writeFileSync. by destruct (writeFileSync w path) as [| e [c |]].
Qed.

Create HintDb emits.
#[local] Hint Resolve emits_ret emits_throw emits_return emits_await emits_prop : emits.

Ltac emits_step :=
  first
    [ apply emits_bind; [| intros ?]
    | apply emits_try_catch; [| intros ?]
    | apply emits_emit; intros ?; discriminate
    | apply emits_fs_writeFileSync; intros ?; discriminate
    | apply emits_run_acme; intros ?; apply acme_events_not_setemail
    | solve [auto with emits]
    | apply emits_update; reflexivity ].

Lemma given_nonempty t : t <> "" -> given (Some t) = true.
Proof. intros H. simpl. by apply negb_true_iff, String.eqb_neq. Qed.

(** C5: when a non-empty reclamation token is supplied, [register] never
    requests the [setemail] endpoint, whatever the collaborators do. *)
Theorem register_reclaimed_never_sets_email
    w cfg email t sub full optout files sett :
  t <> "" ->
  fetched SetEmail
    (trace (snd (register w cfg email (Some t) sub full optout (start files sett))))
  = [].
Proof.
  intros Ht.
  assert (emits not_setemail (register w cfg email (Some t) sub full optout)) as H.
  { unfold register. rewrite (given_nonempty t Ht). cbn [negb].
    unfold writeCertificates, report_registration_failure, fetch, callback,
      console_error.
    repeat emits_step.
    all: match goal with |- context [truthy ?x] => destruct (truthy x) end.
    all: repeat emits_step.
    match goal with |- emits _ (match ?m with _ => _ end) => destruct m end.
    all: repeat emits_step. }
  destruct (H (start files sett)) as (evs & -> & Hevs). simpl.
  by apply fetched_not_setemail.
Qed.

Lemma register_reclaimed_never_sets_email_witness :
  fetched SetEmail
    (trace (snd (register (a_world body_token one_round disk_ok (ok 200 ""))
                   a_config "user@example.com" (Some "reclaim-me") "mygateway"
                   "mygateway.example.com" false (start ∅ ∅))))
  = [].
Proof. apply register_reclaimed_never_sets_email. discriminate. Defined.

(** *** The challenge rounds *)

(** C8: the [dnsconfig] requests of a run are, in order, one per digest the
    issuer handed over, and each URL ends in [&challenge=] followed by that
    digest as it was given. *)
Theorem register_sends_digests_verbatim
    w cfg email rt sub full optout files sett :
  let st' := snd (register w cfg email rt sub full optout (start files sett)) in
  fetched DnsConfig (trace st')
  = if reached_issuance (trace st')
    then map (fun keyAuthDigest =>
                registration_endpoint cfg +:+ "/dnsconfig?token="
                  +:+ to_str (token st') +:+ "&challenge=" +:+ keyAuthDigest)
           (acme_digests (le_register_dns w))
    else [].
Proof.
  intros st'. subst st'.
  change (fun d => registration_endpoint cfg +:+ "/dnsconfig?token="
                     +:+ to_str ?t +:+ "&challenge=" +:+ d)
    with (dnsconfig_url (registration_endpoint cfg) t).
  unfold_m; crunch; try reflexivity.
  all: unfold reached_issuance; rewrite ?existsb_app, ?fetched_app; simpl.
  all: rewrite ?app_nil_r; apply fetched_acme_events.
Qed.

(** *** Email association *)

#[local] Arguments fetched : simpl never.

Lemma acme_events_no_write endpoint tok a :
  filter is_write (acme_events endpoint tok a) = [].
Proof.
  induction a as [results | err | ch ka d net k IH]; simpl; try done.
  rewrite filter_cons, filter_app, IH; simpl.
  by destruct (dns_settled net).
Qed.

Lemma thrown_val {A} (p : settled A) a : thrown p = Val a -> p = Fulfil a.
Proof. destruct p; simpl; congruence. Qed.

Lemma bundle_written cfg results files :
  bundle_on_disk cfg (written cfg results files) = stored results.
Proof.
  destruct (artifacts_distinct (sslDir cfg)) as (Hck & Hch & Hkh).
  unfold bundle_on_disk, written, stored. by simplify_map_eq.
Qed.

Ltac no_setemail :=
  apply fetched_not_setemail;
  repeat first
    [ apply Forall_nil_2
    | apply Forall_cons_2; [intros ?; discriminate |]
    | apply Forall_app_2
    | apply acme_events_not_setemail ].

(** C6: a run that gets to the [setemail] request and sees it fail reports
    that error to the callback and returns; by then the issuer has resolved
    with a bundle, the three files of that bundle are on disk, and they
    stay there. *)
Theorem register_setemail_failure_keeps_certificate
    w cfg email rt sub full optout files sett e :
  let run := register w cfg email rt sub full optout (start files sett) in
  fetched SetEmail (trace (snd run)) <> [] ->
  setemail_net w = Reject e ->
  fst run = Return
  /\ last (trace (snd run)) = Some (Callback e)
  /\ exists results,
      acme_result (le_register_dns w) = Fulfil results
      /\ filter is_write (trace (snd run))
         = [WriteFile (path_join (sslDir cfg) "certificate.pem") (cert results);
            WriteFile (path_join (sslDir cfg) "privatekey.pem") (privkey results);
            WriteFile (path_join (sslDir cfg) "chain.pem") (chain results)]
      /\ fs (snd run) = written cfg results files
      /\ bundle_on_disk cfg (fs (snd run)) = stored results.
Proof.
  intros run Hreached Hfail. subst run. revert Hreached.
  unfold_m; crunch; intros Hreached.
  all: try (exfalso; apply Hreached; no_setemail; fail).
  match goal with H : thrown _ = Val _ |- _ => apply thrown_val in H end.
  split; [done |]. split.
  { by rewrite app_comm_cons, last_snoc. }
  eexists. split; [eassumption |]. split.
  { rewrite !filter_cons, !filter_app, acme_events_no_write. reflexivity. }
  split; [done |]. apply bundle_written.
Qed.

Lemma register_setemail_failure_keeps_certificate_witness :
  let w := a_world body_token one_round disk_ok (Reject network_down) in
  let run := register w a_config "user@example.com" None "mygateway"
               "mygateway.example.com" false (start old_files ∅) in
  fst run = Return
  /\ last (trace (snd run)) = Some (Callback network_down)
  /\ exists results,
      acme_result (le_register_dns w) = Fulfil results
      /\ filter is_write (trace (snd run))
         = [WriteFile (path_join (sslDir a_config) "certificate.pem") (cert results);
            WriteFile (path_join (sslDir a_config) "privatekey.pem") (privkey results);
            WriteFile (path_join (sslDir a_config) "chain.pem") (chain results)]
      /\ fs (snd run) = written a_config results old_files
      /\ bundle_on_disk a_config (fs (snd run)) = stored results.
Proof.
  intros w.
  apply (register_setemail_failure_keeps_certificate w a_config
           "user@example.com" None "mygateway" "mygateway.example.com" false
           old_files ∅ network_down).
  - vm_compute. discriminate.
  - reflexivity.
Defined.

(** *** The successful registration *)

(** C7, as the code has it: without a reclamation token and with every
    collaborator succeeding, [register] stores under [tunneltoken] the
    decoded subscribe response as it came (so its [name] is the name the
    registrar answered, if any), writes the three artifacts from the one
    bundle the issuer returned, and requests [setemail] exactly once. *)
Theorem register_success_without_reclamation
    w cfg email rt sub full optout files sett res body record error results ack :
  given rt = false ->
  subscribe_net w = Fulfil res ->
  text res = Fulfil body ->
  JSON_parse w body = Fulfil record ->
  get_prop record "error" = Some error ->
  truthy error = false ->
  Settings_set w = Fulfil tt ->
  acme_result (le_register_dns w) = Fulfil results ->
  (forall path, writeFileSync w path = WriteOk) ->
  setemail_net w = Fulfil ack ->
  let run := register w cfg email rt sub full optout (start files sett) in
  fst run = Val tt
  /\ settings (snd run) = <["tunneltoken" := record]> sett
  /\ (forall name,
        get_prop record "name" = Some name ->
        exists persisted,
          settings (snd run) !! "tunneltoken" = Some persisted
          /\ get_prop persisted "name" = Some name)
  /\ filter is_write (trace (snd run))
     = [WriteFile (path_join (sslDir cfg) "certificate.pem") (cert results);
        WriteFile (path_join (sslDir cfg) "privatekey.pem") (privkey results);
        WriteFile (path_join (sslDir cfg) "chain.pem") (chain results)]
  /\ bundle_on_disk cfg (fs (snd run)) = stored results
  /\ get_prop record "token" = Some (token (snd run))
  /\ fetched SetEmail (trace (snd run))
     = [setemail_url (registration_endpoint cfg) (token (snd run)) email optout].
Proof.
  intros Hrt Hnet Htext Hparse Herror Hfalsy Hset Hacme Hdisk Hmail run.
  assert (exists tok, get_prop record "token" = Some tok) as [tok Htok].
  { destruct record; try discriminate; simpl; eauto. }
  subst run. unfold_m.
  repeat first
    [ rewrite Hnet | rewrite Htext | rewrite Hparse | rewrite Herror
    | rewrite Hfalsy | rewrite Htok | rewrite Hset | rewrite run_acme_spec
    | rewrite Hacme | rewrite Hdisk | rewrite Hrt | rewrite Hmail
    | progress simpl ].
  split; [done |]. split; [done |]. split.
  { intros name Hname. exists record. by rewrite lookup_insert_eq. }
  split.
  { rewrite !filter_cons, !filter_app, acme_events_no_write. reflexivity. }
  split; [apply bundle_written |]. split; [done |].
  rewrite <- !app_assoc. simpl.
  change (?a :: ?b :: ?c :: ?l) with ([a; b; c] ++ l).
  rewrite !fetched_app.
  rewrite (fetched_not_setemail _ (acme_events_not_setemail _ _ _)).
  reflexivity.
Qed.

Lemma register_success_without_reclamation_witness :
  let w := a_world body_named one_round disk_ok (ok 200 "") in
  let run := register w a_config "user@example.com" None "mygateway"
               "mygateway.example.com" false (start ∅ ∅) in
  settings (snd run) = <["tunneltoken" := json_named]> ∅
  /\ bundle_on_disk a_config (fs (snd run)) = stored a_bundle
  /\ fetched SetEmail (trace (snd run))
     = [setemail_url (registration_endpoint a_config) (token (snd run))
          "user@example.com" false].
Proof.
  intros w.
  pose proof (register_success_without_reclamation w a_config
                "user@example.com" None "mygateway" "mygateway.example.com"
                false ∅ ∅ {| status := 200; text := Fulfil body_named |}
                body_named json_named JUndefined a_bundle
                {| status := 200; text := Fulfil "" |}
                eq_refl eq_refl eq_refl eq_refl eq_refl eq_refl eq_refl eq_refl
                (fun _ => eq_refl) eq_refl) as H.
  cbv zeta in H. destruct H as (_ & Hs & _ & _ & Hb & _ & Hf).
  intros run. subst run. by repeat split.
Defined.

(** C7 fails as stated: the registrar answers [{"token":"abc123"}], as its
    interface says, every collaborator succeeds, and the stored record has
    no [name] at all, let alone the requested subdomain. *)
Lemma register_stores_the_response_not_the_name :
  let w := a_world body_token one_round disk_ok (ok 200 "") in
  let run := register w a_config "user@example.com" None "mygateway"
               "mygateway.example.com" false (start ∅ ∅) in
  fst run = Val tt
  /\ callbacks (trace (snd run)) = [JUndefined]
  /\ settings (snd run) !! "tunneltoken" = Some json_token
  /\ get_prop json_token "name" = Some JUndefined
  /\ get_prop json_token "name" <> Some (JStr "mygateway").
Proof. vm_compute. repeat split; discriminate. Qed.

(** ** The handler of the issuance [try] *)

Lemma acme_events_no_handler endpoint tok a :
  handler_ran (acme_events endpoint tok a) = false.
Proof.
  induction a as [results | err | ch ka d net k IH]; simpl; try done.
  unfold handler_ran in *. simpl. rewrite existsb_app, IH.
  by destruct (dns_settled net).
Qed.

Lemma handler_ran_app tr1 tr2 :
  handler_ran (tr1 ++ tr2) = handler_ran tr1 || handler_ran tr2.
Proof. apply existsb_app. Qed.

(** Whenever the handler of the issuance [try] has run and [register] got
    to its end, the callback received the error and, last, nothing. *)
Lemma register_handler_falls_through
    w cfg email rt sub full optout files sett :
  let run := register w cfg email rt sub full optout (start files sett) in
  handler_ran (trace (snd run)) = true ->
  finished (fst run) = Fulfil tt ->
  exists before reported,
    callbacks (trace (snd run)) = before ++ [reported; JUndefined].
Proof.
  intros run. subst run.
  unfold_m; crunch; intros Hran _.
  all: rewrite ?handler_ran_app, ?acme_events_no_handler in Hran;
    simpl in Hran; try discriminate.
  all: rewrite (callbacks_app _ [Callback JUndefined]),
         (callbacks_app _ [Callback _]), <- app_assoc; simpl; eauto.
Qed.

(** *** Further runs *)

(** The [dnsconfig] request fails and the issuer gives up with the same
    error, which has no [detail] and a one-line message: three invocations,
    the second with the empty string. *)
Example register_three_callbacks_when_dns_fails :
  let issuer :=
    AcmeChallenge "challenge-token" "challenge-token.thumbprint" "digest"
      (Reject network_down)
      (fun p => match p with
                | Fulfil _ => AcmeResolve a_bundle
                | Reject e => AcmeReject e
                end) in
  let w := a_world body_token issuer disk_ok (ok 200 "") in
  let run := register w a_config "user@example.com" None "mygateway"
               "mygateway.example.com" false (start ∅ ∅) in
  finished (fst run) = Fulfil tt
  /\ callbacks (trace (snd run)) = [network_down; JStr ""; JUndefined].
Proof. vm_compute. done. Qed.

(** An issuer that rejects with [null]: reading [err.detail] throws inside
    the handler, the promise of [register] rejects and the callback is not
    invoked at all. *)
Example register_no_callback_when_handler_throws :
  let w := a_world body_token (AcmeReject JNull) disk_ok (ok 200 "") in
  let run := register w a_config "user@example.com" None "mygateway"
               "mygateway.example.com" false (start ∅ ∅) in
  (exists e, finished (fst run) = Reject e)
  /\ callbacks (trace (snd run)) = [].
Proof. vm_compute. eauto. Qed.

(** [Settings.get] resolving with [undefined] instead of rejecting:
    [tunnelToken.name] throws, [renew] rejects, and still nothing was
    requested or written. *)
Example renew_with_undefined_token :
  let w := {| JSON_parse := decode; subscribe_net := ok 200 body_token;
              Settings_set := Fulfil tt; le_register_dns := one_round;
              writeFileSync := disk_ok; setemail_net := ok 200 "";
              Settings_get := Fulfil JUndefined;
              le_register_http := Fulfil a_bundle |} in
  let run := renew w a_config (start old_files ∅) in
  (exists e, finished (fst run) = Reject e)
  /\ filter is_network (trace (snd run)) = []
  /\ fs (snd run) = old_files.
Proof.
  intros w run. split; [| split].
  - eexists. vm_compute. reflexivity.
  - vm_compute. reflexivity.
  - vm_compute. reflexivity.
Qed.

(** A renewal with a stored record replaces the three artifacts. *)
Example renew_replaces_the_bundle :
  let w := {| JSON_parse := decode; subscribe_net := ok 200 body_token;
              Settings_set := Fulfil tt; le_register_dns := one_round;
              writeFileSync := disk_ok; setemail_net := ok 200 "";
              Settings_get := Fulfil json_named;
              le_register_http := Fulfil a_bundle |} in
  let run := renew w a_config (start old_files ∅) in
  trace (snd run)
  = [SettingsGet "tunneltoken";
     LeRegister "mygateway.example.com" "certs@example.com" "http-01";
     WriteFile "/home/user/.mozilla-iot/ssl/certificate.pem" "CERT-2";
     WriteFile "/home/user/.mozilla-iot/ssl/privatekey.pem" "KEY-2";
     WriteFile "/home/user/.mozilla-iot/ssl/chain.pem" "CHAIN-2"]
  /\ bundle_on_disk a_config (fs (snd run)) = stored a_bundle.
Proof. vm_compute. done. Qed.

(** ** The rule store *)

Section rule_store.
Import Database.
Variable w : Database.World.

Lemma set_description_id rid text row :
  Database.id (set_description rid text row) = Database.id row.
Proof. unfold set_description. by destruct (_ =? _)%Z. Qed.

Lemma set_description_other rid text row :
  Database.id row <> rid -> set_description rid text row = row.
Proof.
  intros H. unfold set_description.
  destruct (Z.eqb_spec (Database.id row) rid); [done | done].
Qed.

(** The loop, when it ends with every update fulfilled. *)
Lemma each_row_resolved rows :
  forall rules0 ps0 db0 rules ps db',
    each_row w rows rules0 ps0 db0 = (inr (rules, ps), db') ->
    forallb is_fulfilled ps = true ->
    forallb is_fulfilled ps0 = true
    /\ (forall row, row ∈ rows -> exists desc, parse_description w row = Fulfil desc)
    /\ rules = foldl (add_rule w) rules0 rows
    /\ db' = foldl (apply_migration w) db0 rows.
Proof.
  induction rows as [| row rest IH]; intros rules0 ps0 db0 rules ps db' Hrun Hps;
    simpl in Hrun.
  - injection Hrun as <- <- <-. repeat split; try done.
    intros row Hrow. by apply elem_of_nil in Hrow.
  - unfold add_rule, apply_migration, migration_text, migrated. simpl.
    unfold add_rule, apply_migration, migration_text, migrated.
    destruct (parse_description w row) as [desc | e] eqn:Hparse; [| discriminate].
    destruct (truthy (migrate w desc)) eqn:Hmig.
    + unfold updateRule in Hrun.
      destruct (run_update w (Database.id row) _) as [e |] eqn:Hupd.
      * apply IH in Hrun as (Hps0 & _); [| done].
        rewrite forallb_app in Hps0. simpl in Hps0.
        by rewrite andb_false_r in Hps0.
      * apply IH in Hrun as (Hps0 & Hparsed & -> & ->); [| done].
        rewrite forallb_app in Hps0. apply andb_true_iff in Hps0 as [Hps0 _].
        repeat split; try done.
        intros row' [-> | Hin]%elem_of_cons; eauto.
    + apply IH in Hrun as (Hps0 & Hparsed & -> & ->); [| done].
      repeat split; try done.
      intros row' [-> | Hin]%elem_of_cons; eauto.
Qed.

(** The loop does end that way when the texts decode and no update
    fails. *)
Lemma each_row_total rows :
  (forall row, row ∈ rows -> exists desc, parse_description w row = Fulfil desc) ->
  (forall rid text, run_update w rid text = None) ->
  forall rules0 ps0 db0,
    forallb is_fulfilled ps0 = true ->
    exists rules ps db',
      each_row w rows rules0 ps0 db0 = (inr (rules, ps), db')
      /\ forallb is_fulfilled ps = true.
Proof.
  intros Hparsed Hrun.
  induction rows as [| row rest IH]; intros rules0 ps0 db0 Hps0; simpl.
  - eauto.
  - destruct (Hparsed row) as [desc ->]; [by left |].
    assert (forall r, r ∈ rest ->
              exists d, parse_description w r = Fulfil d) as Hrest
      by (intros r Hr; apply Hparsed; by right).
    destruct (truthy (migrate w desc)).
    + unfold updateRule. rewrite Hrun. apply (IH Hrest).
      rewrite forallb_app, Hps0. reflexivity.
    + by apply (IH Hrest).
Qed.

(** The mapping the loop builds. *)
Lemma add_rule_absent rows :
  forall rules0 i,
    i ∉ map Database.id rows ->
    foldl (add_rule w) rules0 rows !! i = rules0 !! i.
Proof.
  induction rows as [| row rest IH]; intros rules0 i Hi; simpl; [done |].
  simpl in Hi. apply not_elem_of_cons in Hi as [Hne Hi].
  rewrite IH by done. unfold add_rule.
  destruct (parse_description w row); [| done].
  by rewrite lookup_insert_ne.
Qed.

Lemma add_rule_present rows :
  NoDup (map Database.id rows) ->
  forall rules0 row desc,
    row ∈ rows ->
    parse_description w row = Fulfil desc ->
    foldl (add_rule w) rules0 rows !! Database.id row = Some (migrated w desc).
Proof.
  induction rows as [| r rest IH]; intros Hnd rules0 row desc Hin Hparse.
  - by apply elem_of_nil in Hin.
  - simpl in Hnd. apply NoDup_cons in Hnd as [Hfresh Hnd]. simpl.
    apply elem_of_cons in Hin as [-> | Hin].
    + rewrite add_rule_absent by done.
      unfold add_rule. rewrite Hparse. by rewrite lookup_insert_eq.
    + by apply IH.
Qed.

(** The table the updates leave. *)
Lemma apply_migration_rows rows :
  forall db, foldl (apply_migration w) db rows = map (migrate_row w rows) db.
Proof.
  induction rows as [| row rest IH]; intros db; simpl.
  - unfold migrate_row. simpl. by rewrite map_id.
  - rewrite IH. unfold apply_migration, migrate_row. simpl.
    destruct (migration_text w row); [| done].
    by rewrite map_map.
Qed.

Lemma migrate_row_absent rows :
  forall row,
    Database.id row ∉ map Database.id rows -> migrate_row w rows row = row.
Proof.
  induction rows as [| r rest IH]; intros row Hrow; [done |].
  simpl in Hrow. apply not_elem_of_cons in Hrow as [Hne Hrow].
  unfold migrate_row in *. simpl.
  destruct (migration_text w r); [| by apply IH].
  rewrite set_description_other by done. by apply IH.
Qed.

Lemma migrate_row_present rows :
  NoDup (map Database.id rows) ->
  forall row, row ∈ rows -> migrate_row w rows row = persisted w row.
Proof.
  induction rows as [| r rest IH]; intros Hnd row Hin.
  - by apply elem_of_nil in Hin.
  - simpl in Hnd. apply NoDup_cons in Hnd as [Hfresh Hnd].
    apply elem_of_cons in Hin as [-> | Hin].
    + unfold migrate_row, persisted. simpl.
      destruct (migration_text w r) as [text |].
      * fold (migrate_row w rest (set_description (Database.id r) text r)).
        rewrite migrate_row_absent by (by rewrite set_description_id).
        unfold set_description. by rewrite Z.eqb_refl.
      * by apply migrate_row_absent.
    + assert (Database.id row <> Database.id r) as Hne.
      { intros Heq. apply Hfresh. rewrite <- Heq.
        by apply (list_elem_of_fmap_2 Database.id). }
      unfold migrate_row. simpl.
      destruct (migration_text w r) as [text |]; [| by apply IH].
      rewrite set_description_other by done. by apply IH.
Qed.

Lemma map_ext_elem_of {A B} (f g : A -> B) l :
  (forall x, x ∈ l -> f x = g x) -> map f l = map g l.
Proof.
  intros H. apply map_ext_in. intros x Hx. apply H. by apply list_elem_of_In.
Qed.

(** C9: when [getRules] resolves, the mapping has, for every stored row,
    its description with the migration applied (the migrated description
    when the migration answers one, the stored one otherwise) and nothing
    else, and by then every description the migration changed has been
    written back through [updateRule], the other rows being as they were.
    It does resolve when the rows are read, their texts decode and no
    update fails. *)
Theorem getRules_migrates_and_persists db :
  NoDup (map Database.id db) ->
  (forall rules db',
      getRules w db = (Resolved rules, db') ->
      (forall row, row ∈ db ->
         exists desc, parse_description w row = Fulfil desc
                      /\ rules !! Database.id row = Some (migrated w desc))
      /\ (forall i, i ∉ map Database.id db -> rules !! i = None)
      /\ db' = map (persisted w) db)
  /\ (all_err w = None ->
      (forall row, row ∈ db -> exists desc, parse_description w row = Fulfil desc) ->
      (forall rid text, run_update w rid text = None) ->
      exists rules, getRules w db = (Resolved rules, map (persisted w) db)).
Proof.
  intros Hnd.
  assert (forall rules db',
             getRules w db = (Resolved rules, db') ->
             (forall row, row ∈ db ->
                exists desc, parse_description w row = Fulfil desc
                             /\ rules !! Database.id row = Some (migrated w desc))
             /\ (forall i, i ∉ map Database.id db -> rules !! i = None)
             /\ db' = map (persisted w) db) as Hresolved.
  { intros rules db' Hrun. unfold getRules in Hrun.
    destruct (all_err w); [discriminate |].
    destruct (each_row w db ∅ [] db) as [[e | [rules1 ps]] db1] eqn:Hloop;
      [discriminate |].
    destruct (forallb is_fulfilled ps) eqn:Hps; [| discriminate].
    injection Hrun as <- <-.
    apply each_row_resolved in Hloop as (_ & Hparsed & -> & ->); [| done].
    split; [| split].
    - intros row Hrow. destruct (Hparsed row Hrow) as [desc Hdesc].
      exists desc. split; [done |]. by apply add_rule_present.
    - intros i Hi. by rewrite add_rule_absent.
    - rewrite apply_migration_rows. apply map_ext_elem_of.
      intros row Hrow. by apply migrate_row_present. }
  split; [exact Hresolved |].
  intros Hall Hparsed Hrun.
  destruct (each_row_total db Hparsed Hrun ∅ [] db eq_refl)
    as (rules & ps & db' & Hloop & Hps).
  assert (getRules w db = (Resolved rules, db')) as Hget.
  { unfold getRules. by rewrite Hall, Hloop, Hps. }
  exists rules. rewrite Hget.
  by destruct (Hresolved rules db' Hget) as (_ & _ & ->).
Qed.
End rule_store.

Lemma getRules_migrates_and_persists_witness :
  exists rules,
    Database.getRules a_rule_world some_rules
    = (Database.Resolved rules,
       [ {| Database.id := 1; Database.description := Some (versioned_text 2) |};
         {| Database.id := 2; Database.description := Some (versioned_text 2) |} ])
    /\ rules !! 1%Z = Some (versioned 2) /\ rules !! 2%Z = Some (versioned 2).
Proof.
  assert (NoDup (map Database.id some_rules)) as Hnd.
  { simpl. apply NoDup_cons. split; [| apply NoDup_singleton].
    intros H%list_elem_of_singleton. discriminate. }
  assert (forall row, row ∈ some_rules ->
            exists desc, Database.parse_description a_rule_world row = Fulfil desc)
    as Hparsed.
  { intros row Hrow. unfold some_rules in Hrow.
    apply elem_of_cons in Hrow as [-> | Hrow]; [vm_compute; eauto |].
    apply elem_of_cons in Hrow as [-> | Hrow]; [vm_compute; eauto |].
    by apply elem_of_nil in Hrow. }
  destruct (getRules_migrates_and_persists a_rule_world some_rules Hnd)
    as [Hresolved Htotal].
  destruct (Htotal eq_refl Hparsed (fun _ _ => eq_refl)) as [rules Hget].
  exists rules. split; [exact Hget |].
  destruct (Hresolved rules _ Hget) as (Hrules & _ & _).
  split.
  - destruct (Hrules {| Database.id := 1;
                        Database.description := Some (versioned_text 1) |})
      as (desc & Hdesc & Hlook); [by left |].
    vm_compute in Hdesc. injection Hdesc as <-. exact Hlook.
  - destruct (Hrules {| Database.id := 2;
                        Database.description := Some (versioned_text 2) |})
      as (desc & Hdesc & Hlook); [right; by left |].
    vm_compute in Hdesc. injection Hdesc as <-. exact Hlook.
Defined.


(** * Further properties of the certificate manager *)

(** ** Requests and events of the dns-01 exchange *)

Lemma fetched_none op evs : Forall (not_fetch op) evs -> fetched op evs = [].
Proof.
  induction 1 as [| e evs He _ IH]; [done |].
  unfold fetched in *.
  destruct e as [op' url | | | | | |]; simpl; rewrite ?IH; try done.
  destruct (decide (op = op')) as [-> |]; [by destruct (He url) | done].
Qed.

Lemma acme_events_only_dnsconfig op endpoint tok a :
  op <> DnsConfig -> Forall (not_fetch op) (acme_events endpoint tok a).
Proof.
  intros Hop.
  induction a as [results | err | ch ka d net k IH]; simpl; try constructor.
  - intros url [= <-]. done.
  - apply Forall_app; split; [| apply IH].
    destruct (dns_settled net); simpl; repeat constructor; intros url; discriminate.
Qed.

Lemma callbacks_acme_events endpoint tok a :
  callbacks (acme_events endpoint tok a) = acme_publish_errors a.
Proof.
  induction a as [results | err | ch ka d net k IH]; simpl; try done.
  unfold callbacks in *. simpl. rewrite omap_app, IH. f_equal.
  by destruct (dns_settled net).
Qed.

(** ** The subscribe stage *)

(** When the subscribe request, the reading of its body or [JSON.parse]
    fails, [register] reports that error once and stops: nothing stored,
    no issuance, no file. *)
Theorem register_subscribe_failure
    w cfg email rt sub full optout files sett e :
  subscribe_response w = Reject e ->
  register w cfg email rt sub full optout (start files sett)
  = (Return,
     {| trace := [Fetch Subscribe
                    (subscribe_url (registration_endpoint cfg) sub email rt);
                  ConsoleError "Failed to subscribe:" [e];
                  Callback e];
        fs := files; settings := sett; token := JUndefined |}).
Proof.
  unfold subscribe_response. intros Hfail.
  unfold_m; crunch; done.
Qed.

Lemma register_subscribe_failure_witness :
  let w := world_of (Reject network_down) (Fulfil tt) one_round disk_ok
             (ok 200 "") (Reject JNull) (Fulfil a_bundle) in
  let run := register w a_config "user@example.com" None "mygateway"
               "mygateway.example.com" false (start old_files ∅) in
  callbacks (trace (snd run)) = [network_down]
  /\ fs (snd run) = old_files /\ settings (snd run) = ∅.
Proof.
  intros w run. subst run.
  by rewrite (register_subscribe_failure w a_config "user@example.com" None
                "mygateway" "mygateway.example.com" false old_files ∅
                network_down eq_refl).
Defined.

(** A body that decodes to [null] is valid JSON: reading [jsonToken.error]
    throws, and the TypeError is what the callback gets, once; nothing is
    stored or issued. *)
Theorem register_null_response
    w cfg email rt sub full optout files sett :
  subscribe_response w = Fulfil JNull ->
  let run := register w cfg email rt sub full optout (start files sett) in
  exists e,
    get_prop e "name" = Some (JStr "TypeError")
    /\ fst run = Return
    /\ trace (snd run)
       = [Fetch Subscribe (subscribe_url (registration_endpoint cfg) sub email rt);
          ConsoleError "Failed to subscribe:" [e];
          Callback e]
    /\ fs (snd run) = files /\ settings (snd run) = sett.
Proof.
  intros Hnull run. subst run. unfold subscribe_response in Hnull.
  unfold_m; crunch; eexists; repeat split; reflexivity.
Qed.

Lemma register_null_response_witness :
  let w := {| JSON_parse := fun body =>
                              if String.eqb body "null" then Fulfil JNull
                              else decode body;
              subscribe_net := ok 200 "null";
              Settings_set := Fulfil tt; le_register_dns := one_round;
              writeFileSync := disk_ok; setemail_net := ok 200 "";
              Settings_get := Reject JNull;
              le_register_http := Fulfil a_bundle |} in
  let run := register w a_config "user@example.com" None "mygateway"
               "mygateway.example.com" false (start old_files ∅) in
  exists e,
    get_prop e "name" = Some (JStr "TypeError")
    /\ fst run = Return
    /\ trace (snd run)
       = [Fetch Subscribe
            (subscribe_url (registration_endpoint a_config) "mygateway"
               "user@example.com" None);
          ConsoleError "Failed to subscribe:" [e];
          Callback e]
    /\ fs (snd run) = old_files /\ settings (snd run) = ∅.
Proof.
  intros w.
  exact (register_null_response w a_config "user@example.com" None "mygateway"
           "mygateway.example.com" false old_files ∅ eq_refl).
Defined.

(** When [Settings.set] rejects, the subscription has been made but the
    run stops there: the error goes to the callback once, the record is
    not in the settings, the issuer is not called and no file is written. *)
Theorem register_settings_failure
    w cfg email rt sub full optout files sett record error tok e :
  subscribe_response w = Fulfil record ->
  get_prop record "error" = Some error ->
  truthy error = false ->
  get_prop record "token" = Some tok ->
  Settings_set w = Reject e ->
  register w cfg email rt sub full optout (start files sett)
  = (Return,
     {| trace := [Fetch Subscribe
                    (subscribe_url (registration_endpoint cfg) sub email rt);
                  SettingsSet "tunneltoken" record;
                  ConsoleError "Failed to subscribe:" [e];
                  Callback e];
        fs := files; settings := sett; token := tok |}).
Proof.
  unfold subscribe_response. intros Hresp Herror Hfalsy Htok Hset.
  unfold_m; crunch; try congruence; reflexivity.
Qed.

Lemma register_settings_failure_witness :
  let w := world_of (ok 200 body_token) (Reject disk_full) one_round disk_ok
             (ok 200 "") (Reject JNull) (Fulfil a_bundle) in
  let run := register w a_config "user@example.com" None "mygateway"
               "mygateway.example.com" false (start old_files ∅) in
  callbacks (trace (snd run)) = [disk_full]
  /\ reached_issuance (trace (snd run)) = false
  /\ settings (snd run) = ∅ /\ fs (snd run) = old_files.
Proof.
  intros w run. subst run.
  by rewrite (register_settings_failure w a_config "user@example.com" None
                "mygateway" "mygateway.example.com" false old_files ∅
                json_token JUndefined (JStr "abc123") disk_full
                eq_refl eq_refl eq_refl eq_refl eq_refl).
Defined.

(** ** What every run of [register] does *)

(** Every run starts with the subscribe request and makes exactly one. *)
Theorem register_subscribes_first_and_once
    w cfg email rt sub full optout files sett :
  let run := register w cfg email rt sub full optout (start files sett) in
  let url := subscribe_url (registration_endpoint cfg) sub email rt in
  head (trace (snd run)) = Some (Fetch Subscribe url)
  /\ fetched Subscribe (trace (snd run)) = [url].
Proof.
  intros run url. subst run url.
  assert (forall tok, fetched Subscribe
             (acme_events (registration_endpoint cfg) tok (le_register_dns w)) = [])
    as Hacme.
  { intros tok. by apply fetched_none, acme_events_only_dnsconfig. }
  unfold_m; crunch; (split; [reflexivity |]).
  all: repeat match goal with
         | |- context [?x :: ?l ++ ?r] => rewrite (app_comm_cons l r x)
         end.
  all: rewrite ?fetched_app; try reflexivity.
  all: change (?a :: ?b :: ?c :: ?l) with ([a; b; c] ++ l);
    rewrite ?fetched_app, Hacme; reflexivity.
Qed.

#[local] Arguments choose : simpl never.

(** The record is stored before the issuer is called.  A run that calls
    the issuer has first made the subscribe request and stored the decoded
    response under [tunneltoken], and the token it sends later is that
    response's [token]; a run that does not call the issuer stores
    nothing, writes nothing and publishes no challenge. *)
Theorem register_persists_before_issuance
    w cfg email rt sub full optout files sett :
  let run := register w cfg email rt sub full optout (start files sett) in
  if reached_issuance (trace (snd run))
  then exists record rest,
      subscribe_response w = Fulfil record
      /\ trace (snd run)
         = [Fetch Subscribe (subscribe_url (registration_endpoint cfg) sub email rt);
            SettingsSet "tunneltoken" record;
            LeRegister full (certemail cfg) "dns-01"] ++ rest
      /\ settings (snd run) = <["tunneltoken" := record]> sett
      /\ get_prop record "token" = Some (token (snd run))
  else settings (snd run) = sett
       /\ fs (snd run) = files
       /\ filter is_write (trace (snd run)) = []
       /\ fetched DnsConfig (trace (snd run)) = [].
Proof.
  intros run. subst run.
  match goal with
  | |- if ?b then ?x else ?y => change (choose b x y)
  end.
  unfold subscribe_response; unfold_m; crunch; unfold choose; simpl.
  all: try (repeat split; reflexivity).
  all: eexists _, _; repeat split; first [eassumption | reflexivity].
Qed.





#[local] Arguments own_invocations : simpl never.

(** How often the callback is invoked.  Each failed [dnsconfig] request
    invokes it once with its error; after those come the invocations of
    [register] itself: exactly one when the handler of the issuance [try]
    did not run, two when it ran and reported, none when it threw (the
    only way the promise of [register] rejects). *)
Theorem register_callback_count
    w cfg email rt sub full optout files sett :
  let run := register w cfg email rt sub full optout (start files sett) in
  exists own,
    callbacks (trace (snd run))
    = (if reached_issuance (trace (snd run))
       then acme_publish_errors (le_register_dns w)
       else []) ++ own
    /\ length own
       = own_invocations (finished (fst run)) (handler_ran (trace (snd run))).
Proof.
  intros run. subst run.
  match goal with
  | |- context [if ?b then ?x else ?y] =>
      change (if b then x else y) with (choose b x y)
  end.
  unfold_m; crunch.
  all: try match goal with
         | H : thrown ?p = Return |- _ => destruct p; discriminate
         end.
  all: rewrite ?handler_ran_app, ?acme_events_no_handler;
    rewrite ?callbacks_app, ?callbacks_acme_events, <- ?app_assoc.
  all: unfold choose, own_invocations; simpl.
  all: first [ eexists; split; [reflexivity | reflexivity]
             | exists []; split; [by rewrite app_nil_r | reflexivity] ].
Qed.

(** * Further properties of renewal *)

(** [renew] never talks to the registration server: no subscribe,
    [dnsconfig] or [setemail] request, no completion callback, and the
    settings are only read. *)
Theorem renew_never_contacts_registrar w cfg files sett :
  let run := renew w cfg (start files sett) in
  (forall op, fetched op (trace (snd run)) = [])
  /\ callbacks (trace (snd run)) = []
  /\ filter is_settings_set (trace (snd run)) = []
  /\ settings (snd run) = sett.
Proof.
  intros run. subst run.
  unfold_m; crunch; repeat split; try reflexivity; intros []; reflexivity.
Qed.

(** The promise of [renew] rejects in one case only: [Settings.get]
    resolved with [null] or [undefined], so that reading [tunnelToken.name]
    throws outside any [try].  A failed issuance and a failed write are
    logged and the promise is fulfilled. *)
Theorem renew_rejects_only_without_record w cfg st :
  (exists e, finished (fst (renew w cfg st)) = Reject e)
  <-> (Settings_get w = Fulfil JNull \/ Settings_get w = Fulfil JUndefined).
Proof.
  split.
  - intros [e He]. revert He. unfold_m; crunch; intros He; try discriminate.
    all: match goal with
         | H : get_prop ?v _ = None |- _ => destruct v; try discriminate
         end; auto.
  - intros [H | H]; unfold_m; rewrite H; simpl; eauto.
Qed.



(** A renewal that goes through: one issuance for [name.domain] with
    http-01, then the three artifacts of the new bundle, whatever was on
    disk before. *)
Theorem renew_replaces_bundle w cfg st record name results :
  Settings_get w = Fulfil record ->
  get_prop record "name" = Some name ->
  le_register_http w = Fulfil results ->
  (forall path, writeFileSync w path = WriteOk) ->
  let run := renew w cfg st in
  fst run = Val tt
  /\ trace (snd run)
     = trace st
       ++ [SettingsGet "tunneltoken";
           LeRegister (to_str name +:+ "." +:+ domain cfg) (certemail cfg) "http-01";
           WriteFile (path_join (sslDir cfg) "certificate.pem") (cert results);
           WriteFile (path_join (sslDir cfg) "privatekey.pem") (privkey results);
           WriteFile (path_join (sslDir cfg) "chain.pem") (chain results)]
  /\ fs (snd run) = written cfg results (fs st)
  /\ bundle_on_disk cfg (fs (snd run)) = stored results.
Proof.
  intros Hget Hname Hres Hdisk run. subst run.
  unfold_m. rewrite Hget. simpl. rewrite Hname. simpl. rewrite Hres. simpl.
  rewrite !Hdisk. simpl. rewrite <- !app_assoc. simpl.
  repeat split; try reflexivity. apply bundle_written.
Qed.

Lemma renew_replaces_bundle_witness :
  let w := world_of (ok 200 body_named) (Fulfil tt) one_round disk_ok
             (ok 200 "") (Fulfil json_named) (Fulfil a_bundle) in
  let run := renew w a_config (start old_files ∅) in
  fst run = Val tt
  /\ bundle_on_disk a_config (fs (snd run)) = stored a_bundle.
Proof.
  intros w.
  destruct (renew_replaces_bundle w a_config (start old_files ∅) json_named
              (JStr "mygateway") a_bundle eq_refl eq_refl eq_refl
              (fun _ => eq_refl)) as (Hout & _ & _ & Hdisk).
  by split.
Defined.

(** ** Writing twice *)

(** The last bundle written wins: after two successful writes the files
    are exactly those of a single write of the second bundle, and writing
    the same bundle again changes nothing. *)
Theorem writeCertificates_last_wins w cfg results1 results2 st :
  (forall path, writeFileSync w path = WriteOk) ->
  let st1 := snd (writeCertificates w cfg results1 st) in
  let st2 := snd (writeCertificates w cfg results2 st1) in
  fs st2 = fs (snd (writeCertificates w cfg results2 st))
  /\ fs (snd (writeCertificates w cfg results2 st2)) = fs st2.
Proof.
  intros Hdisk st1 st2. subst st1 st2.
  destruct (artifacts_distinct (sslDir cfg)) as (Hck & Hch & Hkh).
  unfold_m. rewrite !Hdisk. simpl.
  set (c := path_join (sslDir cfg) "certificate.pem") in *.
  set (k := path_join (sslDir cfg) "privatekey.pem") in *.
  set (h := path_join (sslDir cfg) "chain.pem") in *.
  split; apply map_eq; intros p;
    (destruct (decide (p = h)) as [-> |]; [by simplify_map_eq | ]);
    (destruct (decide (p = k)) as [-> |]; [by simplify_map_eq | ]);
    (destruct (decide (p = c)) as [-> |]; by simplify_map_eq).
Qed.

Lemma writeCertificates_last_wins_witness :
  let w := a_world body_token one_round disk_ok (ok 200 "") in
  let older := {| cert := "CERT-1"; privkey := "KEY-1"; chain := "CHAIN-1" |} in
  let st1 := snd (writeCertificates w a_config older (start ∅ ∅)) in
  let st2 := snd (writeCertificates w a_config a_bundle st1) in
  fs st2 = fs (snd (writeCertificates w a_config a_bundle (start ∅ ∅)))
  /\ fs (snd (writeCertificates w a_config a_bundle st2)) = fs st2.
Proof.
  intros w older.
  exact (writeCertificates_last_wins w a_config older a_bundle (start ∅ ∅)
           (fun _ => eq_refl)).
Defined.

(** * Further properties of the rule store *)

Section rule_store_operations.
Import Database.
Variable w : Database.World.

Lemma updateRule_ids rid desc db :
  map Database.id (snd (updateRule w rid desc db)) = map Database.id db.
Proof.
  unfold updateRule. destruct (run_update w rid _); simpl; [done |].
  rewrite map_map. apply map_ext. intros row. apply set_description_id.
Qed.

Lemma each_row_ids rows :
  forall rules0 ps0 db0,
    map Database.id (snd (each_row w rows rules0 ps0 db0)) = map Database.id db0.
Proof.
  induction rows as [| row rest IH]; intros rules0 ps0 db0; simpl; [done |].
  destruct (parse_description w row) as [desc | e]; [| done].
  destruct (truthy (migrate w desc)); [| apply IH].
  pose proof (updateRule_ids (Database.id row) (migrate w desc) db0) as Hids.
  destruct (updateRule w (Database.id row) (migrate w desc) db0) as [p db1].
  simpl in Hids. by rewrite IH.
Qed.

(** However [getRules] ends, the table has the rows it had, under the same
    ids and in the same order: reading never adds or removes a rule. *)
Theorem getRules_keeps_ids db :
  map Database.id (snd (getRules w db)) = map Database.id db.
Proof.
  unfold getRules. destruct (all_err w); [done |].
  pose proof (each_row_ids db ∅ [] db) as Hids.
  destruct (each_row w db ∅ [] db) as [[e | [rules ps]] db']; simpl in *;
    [done |].
  by destruct (forallb is_fulfilled ps).
Qed.

(** The promises the loop collects, when every text decodes. *)
Lemma each_row_promises rows :
  (forall row, row ∈ rows -> exists desc, parse_description w row = Fulfil desc) ->
  forall rules0 ps0 db0,
    exists rules ps db',
      each_row w rows rules0 ps0 db0 = (inr (rules, ps0 ++ ps), db')
      /\ forall row text e,
          row ∈ rows ->
          migration_text w row = Some text ->
          run_update w (Database.id row) text = Some e ->
          Reject e ∈ ps.
Proof.
  induction rows as [| row rest IH]; intros Hparsed rules0 ps0 db0; simpl.
  - exists rules0, [], db0. rewrite app_nil_r. split; [done |].
    intros row text e Hrow. by apply elem_of_nil in Hrow.
  - assert (forall r, r ∈ rest ->
              exists d, parse_description w r = Fulfil d) as Hrest
      by (intros r Hr; apply Hparsed; by right).
    destruct (Hparsed row) as [desc Hdesc]; [by left |]. rewrite Hdesc.
    destruct (truthy (migrate w desc)) eqn:Hmig.
    + destruct (updateRule w (Database.id row) (migrate w desc) db0)
        as [p' db1] eqn:Hupd.
      destruct (IH Hrest (<[Database.id row := migrate w desc]> rules0)
                  (ps0 ++ [p']) db1) as (rules & ps & db' & -> & Hps).
      exists rules, (p' :: ps), db'. rewrite <- app_assoc. split; [done |].
      intros r text e [-> | Hr]%elem_of_cons Htext Hfail.
      * unfold migration_text in Htext. rewrite Hdesc, Hmig in Htext.
        injection Htext as <-. unfold updateRule in Hupd. rewrite Hfail in Hupd.
        injection Hupd as <- _. by left.
      * right. by apply (Hps r text e).
    + destruct (IH Hrest (<[Database.id row := desc]> rules0) ps0 db0)
        as (rules & ps & db' & -> & Hps).
      exists rules, ps, db'. split; [done |].
      intros r text e [-> | Hr]%elem_of_cons Htext Hfail.
      * unfold migration_text in Htext. by rewrite Hdesc, Hmig in Htext.
      * by apply (Hps r text e).
Qed.

(** One failed write-back is enough to leave the promise of [getRules]
    pending for good: [Promise.all] rejects and nothing handles it, so the
    caller gets neither the rules nor the error. *)
Theorem getRules_pending_on_failed_update db row text e :
  all_err w = None ->
  (forall r, r ∈ db -> exists desc, parse_description w r = Fulfil desc) ->
  row ∈ db ->
  migration_text w row = Some text ->
  run_update w (Database.id row) text = Some e ->
  fst (getRules w db) = Pending.
Proof.
  intros Hall Hparsed Hrow Htext Hfail. unfold getRules. rewrite Hall.
  destruct (each_row_promises db Hparsed ∅ [] db) as (rules & ps & db' & -> & Hps).
  simpl. specialize (Hps row text e Hrow Htext Hfail).
  destruct (forallb is_fulfilled ps) eqn:Hall_ok; [| done].
  rewrite forallb_forall in Hall_ok.
  apply list_elem_of_In, Hall_ok in Hps. discriminate.
Qed.
End rule_store_operations.

Lemma getRules_pending_on_failed_update_witness :
  let w := {| Database.migrate := Database.migrate a_rule_world;
              Database.JSON_parse := Database.JSON_parse a_rule_world;
              Database.JSON_stringify := Database.JSON_stringify a_rule_world;
              Database.all_err := None;
              Database.run_update := fun _ _ => Some disk_full |} in
  fst (Database.getRules w some_rules) = Database.Pending.
Proof.
  intros w.
  apply (getRules_pending_on_failed_update w some_rules
           {| Database.id := 1; Database.description := Some (versioned_text 1) |}
           (versioned_text 2) disk_full).
  - reflexivity.
  - intros r Hr. unfold some_rules in Hr.
    apply elem_of_cons in Hr as [-> | Hr]; [vm_compute; eauto |].
    apply elem_of_cons in Hr as [-> | Hr]; [vm_compute; eauto |].
    by apply elem_of_nil in Hr.
  - by left.
  - reflexivity.
  - reflexivity.
Defined.

Section rule_store_round_trips.
Import Database.
Variable w : Database.World.

(** The loop on rows that need no migration: no update is issued. *)
Lemma each_row_clean rows :
  (forall row, row ∈ rows ->
     exists desc, parse_description w row = Fulfil desc
                  /\ truthy (migrate w desc) = false) ->
  forall rules0 ps0 db0,
    each_row w rows rules0 ps0 db0
    = (inr (foldl (add_rule w) rules0 rows, ps0), db0).
Proof.
  induction rows as [| row rest IH]; intros Hclean rules0 ps0 db0; simpl; [done |].
  destruct (Hclean row) as (desc & Hdesc & Hmig); [by left |].
  rewrite Hdesc, Hmig. unfold add_rule at 2, migrated. rewrite Hdesc, Hmig.
  apply IH. intros r Hr. apply Hclean. by right.
Qed.

Lemma getRules_resolved_inv db rules db' :
  NoDup (map Database.id db) ->
  getRules w db = (Resolved rules, db') ->
  (forall row, row ∈ db -> exists desc, parse_description w row = Fulfil desc)
  /\ rules = foldl (add_rule w) ∅ db
  /\ db' = map (persisted w) db.
Proof.
  intros Hnd Hrun. unfold getRules in Hrun.
  destruct (all_err w); [discriminate |].
  destruct (each_row w db ∅ [] db) as [[e | [rules1 ps]] db1] eqn:Hloop;
    [discriminate |].
  destruct (forallb is_fulfilled ps) eqn:Hps; [| discriminate].
  injection Hrun as <- <-.
  apply each_row_resolved in Hloop as (_ & Hparsed & -> & ->); [| done].
  repeat split; [done |].
  rewrite apply_migration_rows. apply map_ext_elem_of.
  intros row Hrow. by apply migrate_row_present.
Qed.

(** Reading twice.  When the codec gives back the migrated descriptions it
    stored and the migration has nothing to add to its own result, a
    second [getRules] answers the same mapping as the first, issues no
    update and leaves the table as the first left it. *)
Theorem getRules_second_read_is_clean db rules db' :
  NoDup (map Database.id db) ->
  (forall d, truthy (migrate w d) = true ->
     JSON_parse w (JSON_stringify w (migrate w d)) = Fulfil (migrate w d)) ->
  (forall d, truthy (migrate w d) = true ->
     truthy (migrate w (migrate w d)) = false) ->
  getRules w db = (Resolved rules, db') ->
  getRules w db' = (Resolved rules, db').
Proof.
  intros Hnd Hcodec Hstable Hrun.
  assert (all_err w = None) as Hall.
  { unfold getRules in Hrun. by destruct (all_err w). }
  apply getRules_resolved_inv in Hrun as (Hparsed & -> & ->); [| done].
  assert (forall row, row ∈ db ->
            exists d, parse_description w row = Fulfil d
                      /\ parse_description w (persisted w row) = Fulfil (migrated w d)
                      /\ truthy (migrate w (migrated w d)) = false) as Hpers.
  { intros row Hrow. destruct (Hparsed row Hrow) as [d Hd]. exists d.
    split; [done |]. unfold persisted, migration_text, migrated. rewrite Hd.
    destruct (truthy (migrate w d)) eqn:Hmig.
    - split; [| by apply Hstable]. unfold parse_description. simpl.
      by apply Hcodec.
    - by split. }
  unfold getRules. rewrite Hall.
  rewrite each_row_clean.
  - simpl. f_equal. f_equal.
    clear Hnd Hparsed. induction db as [| row rest IH] using rev_ind; [done |].
    rewrite map_app, !foldl_app. simpl. rewrite IH.
    + destruct (Hpers row) as (d & Hd & Hd' & Hclean); [set_solver |].
      unfold add_rule. rewrite Hd, Hd'. unfold migrated at 1. rewrite Hclean.
      f_equal. unfold persisted. by destruct (migration_text w row).
    + intros r Hr. apply Hpers. set_solver.
  - intros row' (row & -> & Hrow)%list_elem_of_fmap.
    destruct (Hpers row Hrow) as (d & _ & Hd' & Hclean). eauto.
Qed.
End rule_store_round_trips.

Lemma some_rules_nodup : NoDup (map Database.id some_rules).
Proof.
  simpl. apply NoDup_cons. split; [| apply NoDup_singleton].
  intros H%list_elem_of_singleton. discriminate.
Qed.

Lemma a_rule_world_migrates_to_2 d :
  truthy (Database.migrate a_rule_world d) = true ->
  Database.migrate a_rule_world d = versioned 2.
Proof. simpl. repeat case_match; done. Qed.

Lemma getRules_second_read_is_clean_witness :
  exists rules db',
    Database.getRules a_rule_world some_rules = (Database.Resolved rules, db')
    /\ Database.getRules a_rule_world db' = (Database.Resolved rules, db').
Proof.
  destruct (Database.getRules a_rule_world some_rules) as [out db'] eqn:Hrun.
  assert (exists rules, out = Database.Resolved rules) as [rules ->].
  { vm_compute in Hrun. injection Hrun as <- _. eauto. }
  exists rules, db'. split; [done |].
  apply (getRules_second_read_is_clean a_rule_world some_rules rules db'
           some_rules_nodup); [| | exact Hrun].
  - intros d Hd. rewrite (a_rule_world_migrates_to_2 d Hd). reflexivity.
  - intros d Hd. rewrite (a_rule_world_migrates_to_2 d Hd). reflexivity.
Defined.

Section rule_store_crud.
Import Database.
Variable w : Database.World.


(** Update, then read: the mapping has, under that id, the description
    that was written, as the codec gives it back and the migration leaves
    it. *)
Theorem updateRule_then_getRules rid desc db rules db' d :
  NoDup (map Database.id db) ->
  rid ∈ map Database.id db ->
  run_update w rid (JSON_stringify w desc) = None ->
  JSON_parse w (JSON_stringify w desc) = Fulfil d ->
  getRules w (snd (updateRule w rid desc db)) = (Resolved rules, db') ->
  rules !! rid = Some (migrated w d).
Proof.
  intros Hnd Hrid Hrun Hcodec Hget.
  pose proof (updateRule_ids w rid desc db) as Hids.
  unfold updateRule in *. rewrite Hrun in *. simpl in *.
  apply getRules_resolved_inv in Hget as (_ & -> & _); [| by rewrite Hids].
  apply list_elem_of_fmap in Hrid as (row & -> & Hrow).
  set (text := JSON_stringify w desc) in *.
  set (row' := set_description (Database.id row) text row).
  assert (NoDup (map Database.id (map (set_description (Database.id row) text) db)))
    as Hnd' by (by rewrite Hids).
  assert (row' ∈ map (set_description (Database.id row) text) db) as Hin
    by (by apply (list_elem_of_fmap_2 (set_description (Database.id row) text))).
  assert (parse_description w row' = Fulfil d) as Hparse.
  { unfold row', set_description, parse_description. by rewrite Z.eqb_refl. }
  pose proof (add_rule_present w _ Hnd' ∅ row' d Hin Hparse) as Hlook.
  unfold row' in Hlook at 1. by rewrite set_description_id in Hlook.
Qed.

(** Delete, then read: the id is gone from the mapping, and every other
    stored rule is still in it. *)
Theorem deleteRule_then_getRules rid db rules db' :
  NoDup (map Database.id db) ->
  getRules w (snd (deleteRule None rid db)) = (Resolved rules, db') ->
  rules !! rid = None
  /\ forall row, row ∈ db -> Database.id row <> rid ->
       exists desc, parse_description w row = Fulfil desc
                    /\ rules !! Database.id row = Some (migrated w desc).
Proof.
  intros Hnd Hget. simpl in Hget.
  assert (NoDup (map Database.id (filter (fun row => Database.id row <> rid) db)))
    as Hnd'.
  { clear Hget. induction db as [| row rest IH]; [constructor |].
    simpl in Hnd. apply NoDup_cons in Hnd as [Hfresh Hnd].
    rewrite filter_cons. case_decide; [| by apply IH].
    simpl. apply NoDup_cons. split; [| by apply IH].
    intros (r & Hr & Hin%list_elem_of_filter)%list_elem_of_fmap.
    apply Hfresh. rewrite Hr. apply list_elem_of_fmap_2. tauto. }
  apply getRules_resolved_inv in Hget as (Hparsed & -> & _); [| done].
  split.
  - apply add_rule_absent.
    intros (r & Hr & Hin%list_elem_of_filter)%list_elem_of_fmap.
    destruct Hin as [Hne _]. by apply Hne.
  - intros row Hrow Hne.
    assert (row ∈ filter (fun row => Database.id row <> rid) db) as Hin
      by (by apply list_elem_of_filter).
    destruct (Hparsed row Hin) as [desc Hdesc]. exists desc. split; [done |].
    by apply add_rule_present.
Qed.

(** Create, then read: under the id sqlite gave the new row, the mapping
    has the description that was inserted, as the codec gives it back and
    the migration leaves it; [createRule] resolves to that id. *)
Theorem createRule_then_getRules lastID desc db rules db' d :
  NoDup (map Database.id db) ->
  lastID ∉ map Database.id db ->
  JSON_parse w (JSON_stringify w desc) = Fulfil d ->
  getRules w (snd (createRule w (Fulfil lastID) desc db)) = (Resolved rules, db') ->
  fst (createRule w (Fulfil lastID) desc db) = Fulfil lastID
  /\ rules !! lastID = Some (migrated w d).
Proof.
  intros Hnd Hfresh Hcodec Hget. simpl in *. split; [done |].
  set (row := {| Database.id := lastID;
                 Database.description := Some (JSON_stringify w desc) |}) in *.
  assert (NoDup (map Database.id (db ++ [row]))) as Hnd'.
  { rewrite map_app. apply NoDup_app. split; [done |]. split.
    - intros i Hi [-> | []%elem_of_nil]%elem_of_cons. done.
    - apply NoDup_singleton. }
  apply getRules_resolved_inv in Hget as (_ & -> & _); [| done].
  change lastID with (Database.id row).
  apply add_rule_present; [done | set_solver | done].
Qed.
End rule_store_crud.


Ltac resolved_run Hrun :=
  match goal with
  | |- context [Database.getRules ?w ?db] =>
      destruct (Database.getRules w db) as [out db'] eqn:Hrun;
      let H := fresh in
      assert (exists rules, out = Database.Resolved rules) as [rules ->]
        by (vm_compute in Hrun; injection Hrun as <- _; eauto)
  end.

Lemma updateRule_then_getRules_witness :
  exists rules db',
    Database.getRules a_rule_world
      (snd (Database.updateRule a_rule_world 2 (versioned 1) some_rules))
    = (Database.Resolved rules, db')
    /\ rules !! 2%Z = Some (versioned 2).
Proof.
  resolved_run Hrun. exists rules, db'. split; [done |].
  apply (updateRule_then_getRules a_rule_world 2 (versioned 1) some_rules rules db'
           (versioned 1) some_rules_nodup); [| reflexivity | reflexivity | exact Hrun].
  simpl. right. by left.
Defined.

Lemma deleteRule_then_getRules_witness :
  exists rules db',
    Database.getRules a_rule_world (snd (Database.deleteRule None 1 some_rules))
    = (Database.Resolved rules, db')
    /\ rules !! 1%Z = None.
Proof.
  resolved_run Hrun. exists rules, db'. split; [done |].
  apply (deleteRule_then_getRules a_rule_world 1 some_rules rules db'
           some_rules_nodup Hrun).
Defined.

Lemma createRule_then_getRules_witness :
  exists rules db',
    Database.getRules a_rule_world
      (snd (Database.createRule a_rule_world (Fulfil 3%Z) (versioned 1) some_rules))
    = (Database.Resolved rules, db')
    /\ rules !! 3%Z = Some (versioned 2).
Proof.
  resolved_run Hrun. exists rules, db'. split; [done |].
  apply (createRule_then_getRules a_rule_world 3 (versioned 1) some_rules rules db'
           (versioned 1) some_rules_nodup); [| reflexivity | exact Hrun].
  simpl. intros H.
  repeat (apply elem_of_cons in H as [H | H]; [discriminate |]).
  by apply elem_of_nil in H.
Defined.
